(** * aeon: [DummyForecaster] and [ScaledLogitSeriesTransformer]

    A shallow embedding of
      - [aeon/forecasting/_dummy.py] (class [DummyForecaster]) and
      - [aeon/transformations/series/_scaled_logit.py]
        (class [ScaledLogitSeriesTransformer]),
    followed by the properties their specification states.

    Python methods are written in a state-and-exception monad: the state is
    the part of the Python world a method can read or write (the object
    [self], the store of numpy arrays, the log of issued warnings), and an
    exception ends the run with [inl].  numpy arrays are objects of a store
    and are passed by reference, so that "a fresh copy" and "the input is
    not modified" are statements about addresses. *)

From Stdlib Require Import ZArith String.
From stdpp Require Import gmap.
From Stdlib Require Import Reals Lra.

(** ** Python runtime: exceptions and the method monad *)

Inductive exn : Type :=
| IndexError      (* sequence index out of range *)
| TypeError       (* arithmetic on [None] *)
| ValueError      (* operands could not be broadcast together *)
| NotFittedError  (* estimator used before [fit] *)
| InvalidRef.     (* a reference to no live object; no Python program has one *)

Definition M (St A : Type) : Type := St -> (exn + A) * St.

Definition ret {St A} (a : A) : M St A := fun s => (inr a, s).

Definition bind {St A B} (c : M St A) (k : A -> M St B) : M St B :=
  fun s => match c s with
           | (inr a, s') => k a s'
           | (inl e, s') => (inl e, s')
           end.

Definition raise {St A} (e : exn) : M St A := fun s => (inl e, s).
Definition get {St} : M St St := fun s => (inr s, s).
Definition put {St} (s : St) : M St unit := fun _ => (inr tt, s).
Definition gets {St A} (f : St -> A) : M St A := fun s => (inr (f s), s).

Declare Scope py_scope.
Delimit Scope py_scope with py.
Notation "x <- c ;; k" := (bind c (fun x => k))
  (at level 100, c at next level, right associativity) : py_scope.
Notation "c ;; k" := (bind c (fun _ => k))
  (at level 100, right associativity) : py_scope.
Local Open Scope py_scope.

(** [if c: body] with no [else]. *)
Definition when {St} (c : bool) (body : M St unit) : M St unit :=
  if c then body else ret tt.

(** [l[i]] on a sequence, with Python's negative indices. *)
Definition py_getitem {St A} (l : list A) (i : Z) : M St A :=
  let n := Z.of_nat (length l) in
  let j := if (i <? 0)%Z then (i + n)%Z else i in
  if ((j <? 0) || (n <=? j))%Z then raise IndexError
  else match l !! Z.to_nat j with
       | Some v => ret v
       | None => raise IndexError
       end.

(** ** [aeon/forecasting/_dummy.py] *)

Module DummyForecaster.
Section Defs.
(** [A]: the observations of a series; [E]: exogenous data. *)
Context {A E : Type}.

(** The attributes the class sets; [None] is Python's [None]. *)
Record obj : Type := Obj { last_value_ : option A }.

(** [self.last_value_ = None] *)
Definition __init__ : obj := {| last_value_ := None |}.

(** [self.last_value_ = y[-1]; return self] *)
Definition _fit (y : list A) (exog : option E) : M obj obj :=
  v <- py_getitem y (-1) ;;
  put {| last_value_ := Some v |} ;;
  get.

(** [return self.last_value_] *)
Definition _predict (y : option (list A)) (exog : option E)
  : M obj (option A) :=
  gets last_value_.

(** [return y[-1]] *)
Definition _forecast (y : list A) (X : option E) : M obj A :=
  py_getitem y (-1).
End Defs.
Arguments obj : clear implicits.
End DummyForecaster.

(** The public methods of a forecaster are those of the base class
    [aeon.forecasting.base.BaseForecaster], which is not among the sources:
    [DummyForecaster] only overrides [_fit], [_predict] and [_forecast]. *)
Module BaseForecaster.
Section Defs.
Context {A E : Type}.

(** Modelled from the spec: the state of the base class
    [aeon.forecasting.base.BaseForecaster] (missing from the sources),
    "no state machine beyond {unfit, fit}".  [is_fitted] says whether
    [fit] has been called; [impl] is the [DummyForecaster] part. *)
Record obj : Type :=
  Obj { is_fitted : bool; impl : DummyForecaster.obj A }.

(** Modelled from the spec: the method dispatch of the base class
    (missing from the sources), which runs a method of the subclass on
    the [impl] part of the object. *)
Definition on_impl {B} (c : M (DummyForecaster.obj A) B) : M obj B :=
  fun s => match c (impl s) with
           | (r, i) => (r, {| is_fitted := is_fitted s; impl := i |})
           end.

(** Modelled from the spec: construction, missing from the sources;
    the object is "created empty", in state unfit. *)
Definition __init__ : obj :=
  {| is_fitted := false; impl := DummyForecaster.__init__ |}.

(** Modelled from the spec: [BaseForecaster.fit], missing from the
    sources; "stores its last element as last_value", "mutates internal
    state", and the forecaster has been fit from then on. *)
Definition fit (y : list A) (exog : option E) : M obj unit :=
  on_impl (DummyForecaster._fit y exog) ;;
  s <- get ;;
  put {| is_fitted := true; impl := impl s |}.

(** Modelled from the spec: [BaseForecaster.predict], missing from the
    sources; "returns last_value unconditionally, ignoring any exogenous
    covariates passed.  Fails with an unfit model condition if called
    before fit". *)
Definition predict (y : option (list A)) (exog : option E)
  : M obj (option A) :=
  s <- get ;;
  if is_fitted s then on_impl (DummyForecaster._predict y exog)
  else raise NotFittedError.

(** Modelled from the spec: [BaseForecaster.forecast], missing from the
    sources; "returns its last element without requiring a prior fit
    call", "without persisting state". *)
Definition forecast (y : list A) (X : option E) : M obj A :=
  on_impl (DummyForecaster._forecast y X).

(** Modelled from the spec: the lifecycle protocol of the base class
    (missing from the sources), as the calls a client can make on a
    forecaster and the state they leave behind when made one after the
    other (a failed call leaves what it had written). *)
Inductive call : Type :=
| CallFit (y : list A) (exog : option E)
| CallPredict (y : option (list A)) (exog : option E)
| CallForecast (y : list A) (X : option E).

Definition is_fit_call (c : call) : bool :=
  match c with CallFit _ _ => true | _ => false end.

Definition do_call (c : call) (s : obj) : obj :=
  match c with
  | CallFit y exog => snd (fit y exog s)
  | CallPredict y exog => snd (predict y exog s)
  | CallForecast y X => snd (forecast y X s)
  end.

Definition do_calls (cs : list call) (s : obj) : obj :=
  fold_left (fun s c => do_call c s) cs s.
End Defs.
Arguments obj : clear implicits.
Arguments call : clear implicits.
End BaseForecaster.

(** ** [aeon/transformations/series/_scaled_logit.py] *)

(** *** Numbers

    The transform is arithmetic on the elements of an array.  The class
    below is the arithmetic the module uses: Python and numpy scalars with
    [-], [+], [*], [/], [np.log], [np.exp], the comparisons [>=] and [<=]
    and the truth value of a number ([bool(x)], false exactly for zero).
    What does not depend on the laws of arithmetic (which branch runs,
    which warnings are issued, what is allocated) is proved for every
    instance; the algebraic properties are proved for the real numbers. *)
Class NumOps (num : Type) : Type := {
  num_one : num;
  num_add : num -> num -> num;
  num_sub : num -> num -> num;
  num_mul : num -> num -> num;
  num_div : num -> num -> num;
  num_neg : num -> num;
  num_log : num -> num;
  num_exp : num -> num;
  num_geb : num -> num -> bool;
  num_leb : num -> num -> bool;
  num_is_zero : num -> bool
}.

(** float64 arithmetic idealised as arithmetic on the reals: rounding,
    overflow, [nan] and the infinities are left out ([ln] is 0 on
    non-positive arguments, [/] on a zero divisor is [x * / 0]). *)
#[export] Instance R_NumOps : NumOps R := {|
  num_one := 1%R;
  num_add := Rplus;
  num_sub := Rminus;
  num_mul := Rmult;
  num_div := Rdiv;
  num_neg := Ropp;
  num_log := ln;
  num_exp := exp;
  num_geb := fun x y => if Rle_dec y x then true else false;
  num_leb := fun x y => if Rle_dec x y then true else false;
  num_is_zero := fun x => if Req_dec_T x 0%R then true else false
|}.

(** Formal expressions: the arithmetic is written down instead of carried
    out, so that running a method shows which operations it applies to an
    element, and in which order.  Comparisons and truth values are those of
    integer literals. *)
Inductive term : Type :=
| Lit (z : Z)
| Add (s t : term)
| Sub (s t : term)
| Mul (s t : term)
| Div (s t : term)
| Neg (t : term)
| Log (t : term)
| Exp (t : term).

Definition lit_cmp (f : Z -> Z -> bool) (s t : term) : bool :=
  match s, t with
  | Lit a, Lit b => f a b
  | _, _ => false
  end.

#[export] Instance term_NumOps : NumOps term := {|
  num_one := Lit 1;
  num_add := Add;
  num_sub := Sub;
  num_mul := Mul;
  num_div := Div;
  num_neg := Neg;
  num_log := Log;
  num_exp := Exp;
  num_geb := lit_cmp Z.geb;
  num_leb := lit_cmp Z.leb;
  num_is_zero := fun t => match t with Lit 0 => true | _ => false end
|}.

Module ScaledLogitSeriesTransformer.
Section Defs.
Context {num : Type} `{NumOps num}.

(** *** The store of arrays *)

(** An [np.ndarray]: a shape and a flat buffer of elements. *)
Record ndarray : Type := NdArray { shape : list nat; data : list num }.

Definition addr : Type := nat.

Inductive category : Type := RuntimeWarning.
Record warning : Type :=
  Warning { message : string; warning_category : category }.

(** The constructor arguments, as attributes of [self]. *)
Record obj : Type :=
  Obj { lower_bound : option num; upper_bound : option num }.

Record world : Type := World {
  self : obj;
  heap : gmap addr ndarray;
  warnings : list warning
}.

(** [self.lower_bound = lower_bound; self.upper_bound = upper_bound] *)
Definition __init__ (lower_bound upper_bound : option num) : obj :=
  {| lower_bound := lower_bound; upper_bound := upper_bound |}.

(** A new object gets an address no live object has. *)
Definition alloc (a : ndarray) : M world addr :=
  fun w => let l := fresh (dom (heap w)) in
           (inr l, {| self := self w;
                      heap := <[l := a]> (heap w);
                      warnings := warnings w |}).

Definition deref (l : addr) : M world ndarray :=
  fun w => match heap w !! l with
           | Some a => (inr a, w)
           | None => (inl InvalidRef, w)
           end.

(** [warnings.warn(message, category)], under the default filter, which
    reports the warning and goes on. *)
Definition warn (message : string) (c : category) : M world unit :=
  fun w => (inr tt, {| self := self w;
                       heap := heap w;
                       warnings := warnings w ++ [Warning message c] |}).

(** *** numpy *)

Definition amap (f : num -> num) (a : ndarray) : ndarray :=
  {| shape := shape a; data := map f (data a) |}.

(** An elementwise operation of one array: the result is a new array. *)
Definition ufunc (f : num -> num) (X : addr) : M world addr :=
  a <- deref X ;; alloc (amap f a).

Definition np_log : addr -> M world addr := ufunc num_log.
Definition np_exp : addr -> M world addr := ufunc num_exp.
(** [-X] *)
Definition np_negative : addr -> M world addr := ufunc num_neg.
(** [X - c], [c - X], [X + c], [c * X] for a scalar [c] *)
Definition np_subtract (X : addr) (c : num) : M world addr :=
  ufunc (fun x => num_sub x c) X.
Definition np_rsubtract (c : num) (X : addr) : M world addr :=
  ufunc (fun x => num_sub c x) X.
Definition np_add (X : addr) (c : num) : M world addr :=
  ufunc (fun x => num_add x c) X.
Definition np_rmultiply (c : num) (X : addr) : M world addr :=
  ufunc (fun x => num_mul c x) X.

(** [X / Y] for two arrays.  Only arrays of one shape are divided here
    (both come from the same [X]); other shapes are reported as numpy
    reports shapes it cannot broadcast. *)
Definition np_divide (X Y : addr) : M world addr :=
  a <- deref X ;;
  b <- deref Y ;;
  if decide (shape a = shape b)
  then alloc {| shape := shape a;
                data := zip_with num_div (data a) (data b) |}
  else raise ValueError.

(** [np.any(X >= c)] and [np.any(X <= c)]; the boolean array of the
    comparison is consumed at once and is not kept in the store. *)
Definition np_any_ge (X : addr) (c : num) : M world bool :=
  a <- deref X ;; ret (existsb (fun x => num_geb x c) (data a)).
Definition np_any_le (X : addr) (c : num) : M world bool :=
  a <- deref X ;; ret (existsb (fun x => num_leb x c) (data a)).

(** [copy.deepcopy(X)] *)
Definition deepcopy (X : addr) : M world addr :=
  a <- deref X ;; alloc a.

(** *** Python values *)

(** [bool(v)] for [v] a number or [None]. *)
Definition truthy (v : option num) : bool :=
  match v with
  | None => false
  | Some x => negb (num_is_zero x)
  end.

(** [v is not None] *)
Definition is_not_None (v : option num) : bool :=
  match v with None => false | Some _ => true end.

(** [v] as an operand of array arithmetic. *)
Definition operand (v : option num) : M world num :=
  match v with
  | Some x => ret x
  | None => raise TypeError
  end.

Definition self_lower_bound : M world (option num) :=
  gets (fun w => lower_bound (self w)).
Definition self_upper_bound : M world (option num) :=
  gets (fun w => upper_bound (self w)).

Definition msg_upper : string :=
  "X in ScaledLogitSeriesTransformer should not have values greater than upper_bound".
Definition msg_lower : string :=
  "X in ScaledLogitSeriesTransformer should not have values lower than lower_bound".

(** *** The methods *)

(** [v is not None and np.any(X >= v)]: [and] does not evaluate its
    second operand when the first is false. *)
Definition violates_upper (X : addr) : M world bool :=
  ub <- self_upper_bound ;;
  if is_not_None ub then b <- operand ub ;; np_any_ge X b else ret false.

Definition violates_lower (X : addr) : M world bool :=
  lb <- self_lower_bound ;;
  if is_not_None lb then a <- operand lb ;; np_any_le X a else ret false.

Definition _transform {Y} (X : addr) (y : option Y) : M world addr :=
  c <- violates_upper X ;;
  when c (warn msg_upper RuntimeWarning) ;;
  c <- violates_lower X ;;
  when c (warn msg_lower RuntimeWarning) ;;
  ub <- self_upper_bound ;;
  lb <- self_lower_bound ;;
  X_transformed <-
    (if truthy ub && truthy lb then
       (* np.log((X - self.lower_bound) / (self.upper_bound - X)) *)
       a <- operand lb ;;
       t1 <- np_subtract X a ;;
       b <- operand ub ;;
       t2 <- np_rsubtract b X ;;
       t3 <- np_divide t1 t2 ;;
       np_log t3
     else if is_not_None ub then
       (* -np.log(self.upper_bound - X) *)
       b <- operand ub ;;
       t1 <- np_rsubtract b X ;;
       t2 <- np_log t1 ;;
       np_negative t2
     else if is_not_None lb then
       (* np.log(X - self.lower_bound) *)
       a <- operand lb ;;
       t1 <- np_subtract X a ;;
       np_log t1
     else
       deepcopy X) ;;
  ret X_transformed.

Definition _inverse_transform {Y} (X : addr) (y : option Y)
  : M world addr :=
  ub <- self_upper_bound ;;
  lb <- self_lower_bound ;;
  X_inv_transformed <-
    (if truthy ub && truthy lb then
       (* (self.upper_bound * np.exp(X) + self.lower_bound)
          / (np.exp(X) + 1) *)
       b <- operand ub ;;
       e1 <- np_exp X ;;
       t1 <- np_rmultiply b e1 ;;
       a <- operand lb ;;
       t2 <- np_add t1 a ;;
       e2 <- np_exp X ;;
       t3 <- np_add e2 num_one ;;
       np_divide t2 t3
     else if is_not_None ub then
       (* self.upper_bound - np.exp(-X) *)
       b <- operand ub ;;
       t1 <- np_negative X ;;
       t2 <- np_exp t1 ;;
       np_rsubtract b t2
     else if is_not_None lb then
       (* np.exp(X) + self.lower_bound *)
       t1 <- np_exp X ;;
       a <- operand lb ;;
       np_add t1 a
     else
       deepcopy X) ;;
  ret X_inv_transformed.

(** *** What the methods compute, element by element

    The formula an object applies follows from its two attributes alone:
    the first test of the [if] chain is on the truth value of both
    bounds, the next two on their presence. *)
Inductive formula : Type :=
| Logit (a b : num)     (* log((x - a) / (b - x)) *)
| UpperLog (b : num)    (* -log(b - x) *)
| LowerLog (a : num)    (* log(x - a) *)
| Identity.

Definition selected (o : obj) : formula :=
  match upper_bound o, lower_bound o with
  | Some b, Some a =>
      if negb (num_is_zero b) && negb (num_is_zero a)
      then Logit a b else UpperLog b
  | Some b, None => UpperLog b
  | None, Some a => LowerLog a
  | None, None => Identity
  end.

Definition forward (f : formula) (x : num) : num :=
  match f with
  | Logit a b => num_log (num_div (num_sub x a) (num_sub b x))
  | UpperLog b => num_neg (num_log (num_sub b x))
  | LowerLog a => num_log (num_sub x a)
  | Identity => x
  end.

Definition backward (f : formula) (x : num) : num :=
  match f with
  | Logit a b =>
      num_div (num_add (num_mul b (num_exp x)) a)
              (num_add (num_exp x) num_one)
  | UpperLog b => num_sub b (num_exp (num_neg x))
  | LowerLog a => num_add (num_exp x) a
  | Identity => x
  end.

(** The warnings [_transform] issues for an array [a]. *)
Definition above_upper (o : obj) (a : ndarray) : bool :=
  match upper_bound o with
  | Some b => existsb (fun x => num_geb x b) (data a)
  | None => false
  end.

Definition below_lower (o : obj) (a : ndarray) : bool :=
  match lower_bound o with
  | Some c => existsb (fun x => num_leb x c) (data a)
  | None => false
  end.

Definition issued (o : obj) (a : ndarray) : list warning :=
  (if above_upper o a then [Warning msg_upper RuntimeWarning] else [])
  ++ (if below_lower o a then [Warning msg_lower RuntimeWarning] else []).

(** [w'] is [w] with more arrays allocated: the object, the warnings and
    every array of [w] are as they were. *)
Definition grows (w w' : world) : Prop :=
  self w' = self w /\ warnings w' = warnings w /\ heap w ⊆ heap w'.

(** A step that issues no warning, whether it returns or raises. *)
Definition silent {B} (c : M world B) : Prop :=
  forall w, warnings (snd (c w)) = warnings w.
End Defs.
Arguments ndarray : clear implicits.
Arguments obj : clear implicits.
Arguments world : clear implicits.

(** [{"lower_bound": -(10**6), "upper_bound": 10**6}] *)
Definition _get_test_params : obj R :=
  __init__ (Some (- 10 ^ 6)%R) (Some (10 ^ 6)%R).

(** The open interval of the configured bounds: [(a, b)], [(a, +inf)],
    [(-inf, b)] or all reals. *)
Definition inside (o : obj R) (x : R) : Prop :=
  match lower_bound o with Some a => (a < x)%R | None => True end /\
  match upper_bound o with Some b => (x < b)%R | None => True end.
End ScaledLogitSeriesTransformer.

(** ** Concrete inputs, used to instantiate the properties below *)

Module Examples.
Import ScaledLogitSeriesTransformer.

(** A world with one array, at address 0. *)
Definition world_of (o : obj R) (a : ndarray R) : world R :=
  {| self := o; heap := {[ 0%nat := a ]}; warnings := [] |}.

Definition inside_test : ndarray R :=
  NdArray [2%nat; 2%nat] [0; 500; -500; 999999]%R.
Definition at_and_above_100 : ndarray R :=
  NdArray [2%nat] [100; 150]%R.
Definition one_and_ten : ndarray R := NdArray [2%nat] [1; 10]%R.
Definition one_half : ndarray R := NdArray [1%nat] [1 / 2]%R.

(** The same on formal expressions. *)
Definition term_world (lower upper : option Z) (xs : list Z) : world term :=
  {| self := __init__ (Lit <$> lower) (Lit <$> upper);
     heap := {[ 0%nat := NdArray [length xs] (map Lit xs) ]};
     warnings := [] |}.

(** What a run returns: the outcome, the warnings issued and, when an
    address is returned, the elements of the array there. *)
Definition observe (r : (exn + addr) * world term)
  : (exn + list term) * list warning :=
  (match fst r with
   | inl e => inl e
   | inr l => match heap (snd r) !! l with
              | Some a => inr (data a)
              | None => inl InvalidRef
              end
   end, warnings (snd r)).
End Examples.

(** ** Sequences of calls on a [DummyForecaster]

    The three methods of the class, called one after the other on one
    object; a call that raises leaves the object as the method left it and
    the next call goes on from there. *)

Module DummyCalls.
Section Defs.
Context {A E : Type}.

Inductive call : Type :=
| Fit (y : list A) (exog : option E)
| Predict (y : option (list A)) (exog : option E)
| Forecast (y : list A) (X : option E).

Definition do_call (c : call) (s : DummyForecaster.obj A)
  : DummyForecaster.obj A :=
  match c with
  | Fit y exog => snd (DummyForecaster._fit y exog s)
  | Predict y exog => snd (DummyForecaster._predict y exog s)
  | Forecast y X => snd (DummyForecaster._forecast y X s)
  end.

Definition do_calls (cs : list call) (s : DummyForecaster.obj A)
  : DummyForecaster.obj A :=
  fold_left (fun s c => do_call c s) cs s.

(** The last observation of the latest non-empty series given to [Fit]
    in [cs], and [start] when there is none. *)
Definition last_fitted (cs : list call) (start : option A) : option A :=
  fold_left (fun acc c =>
               match c with
               | Fit y _ => match last y with
                            | Some v => Some v
                            | None => acc
                            end
               | _ => acc
               end) cs start.
End Defs.
Arguments call : clear implicits.
End DummyCalls.

(** ** Configurations of the transformer on the reals *)

Module Bounds.
Import ScaledLogitSeriesTransformer.


End Bounds.

(** * Properties *)

(** ** Runtime *)

Section Runtime.
Context {St A : Type}.

Lemma bind_ok {B} (c : M St A) (k : A -> M St B) s a s' :
  c s = (inr a, s') -> bind c k s = k a s'.
Proof. unfold bind. intros ->. reflexivity. Qed.

Lemma bind_raise {B} (c : M St A) (k : A -> M St B) s e s' :
  c s = (inl e, s') -> bind c k s = (inl e, s').
Proof. unfold bind. intros ->. reflexivity. Qed.

Lemma bind_ret_l {B} (a : A) (k : A -> M St B) s :
  bind (ret a) k s = k a s.
Proof. reflexivity. Qed.

Lemma bind_ret_r (c : M St A) s : bind c ret s = c s.
Proof. unfold bind, ret. by destruct (c s) as [[e|a] s']. Qed.

Lemma bind_gets {B C} (f : St -> B) (k : B -> M St C) s :
  bind (gets f) k s = k (f s) s.
Proof. reflexivity. Qed.

(** [l[-1]] is the last element; it exists when [l] is not empty. *)
Lemma py_getitem_minus_one (l : list A) (s : St) :
  l <> [] ->
  exists v, last l = Some v /\ py_getitem l (-1) s = (inr v, s).
Proof.
  intros Hne.
  destruct (last l) as [v|] eqn:Hlast; [|by apply last_None in Hlast].
  exists v. split; [done|].
  assert (0 < length l) as Hlen by (destruct l; [done | simpl; lia]).
  unfold py_getitem. cbn [Z.ltb Z.compare].
  rewrite last_lookup in Hlast.
  replace (Z.to_nat (-1 + Z.of_nat (length l))) with (pred (length l)) by lia.
  rewrite Hlast.
  destruct (Z.ltb_spec (-1 + Z.of_nat (length l)) 0); [lia|].
  destruct (Z.leb_spec (Z.of_nat (length l)) (-1 + Z.of_nat (length l)));
    [lia | done].
Qed.

(** On the empty sequence [l[-1]] raises. *)
Lemma py_getitem_empty (i : Z) (s : St) :
  py_getitem (@nil A) i s = (inl IndexError, s).
Proof.
  unfold py_getitem. change (Z.of_nat (length (@nil A))) with 0%Z.
  set (j := if (i <? 0)%Z then _ else _).
  destruct ((j <? 0)%Z || (0 <=? j)%Z) eqn:Hc; [done|].
  apply orb_false_elim in Hc as [H1 H2].
  apply Z.ltb_ge in H1. apply Z.leb_gt in H2. lia.
Qed.
End Runtime.

(** ** The forecaster *)

Section ForecasterFacts.
Context {A E : Type}.
Import DummyForecaster.

Lemma _fit_run (y : list A) (exog : option E) (s : obj A) :
  y <> [] ->
  exists v, last y = Some v /\
    _fit y exog s = (inr {| last_value_ := Some v |},
                     {| last_value_ := Some v |}).
Proof.
  intros Hne.
  destruct (py_getitem_minus_one (St := obj A) y s Hne) as (v & Hv & Hrun).
  exists v. split; [done|].
  unfold _fit. by rewrite (bind_ok _ _ _ _ _ Hrun).
Qed.

(** An empty series is refused by the indexing, and nothing is stored. *)
Lemma _fit_empty (exog : option E) (s : obj A) :
  _fit [] exog s = (inl IndexError, s).
Proof.
  unfold _fit. by rewrite (bind_raise _ _ _ _ _ (py_getitem_empty _ s)).
Qed.

(** On its own the method of the subclass has no check: on a new object
    it returns the [None] the constructor stored. *)
Lemma _predict_new (y : option (list A)) (exog : option E) :
  _predict y exog (__init__ (A := A)) = (inr None, __init__).
Proof. reflexivity. Qed.
End ForecasterFacts.

Section ForecasterClaims.
Context {A E : Type}.

(** C5. For every non-empty sequence [s], [_fit(s)] followed by
    [_predict] returns exactly the last element [s[-1]], as it was
    given, whatever [y] and [exog] are passed to [_predict]. *)
Theorem fit_then_predict_returns_last
    (s : list A) (exog : option E)
    (y : option (list A)) (exog' : option E)
    (self : DummyForecaster.obj A) :
  s <> [] ->
  exists v, last s = Some v /\
    (DummyForecaster._fit s exog ;;
     DummyForecaster._predict y exog') self
    = (inr (Some v), {| DummyForecaster.last_value_ := Some v |}).
Proof.
  intros Hne.
  destruct (_fit_run s exog self Hne) as (v & Hv & Hrun).
  exists v. split; [done|].
  by rewrite (bind_ok _ _ _ _ _ Hrun).
Qed.

(** C6. For every non-empty sequence [s], [_forecast(s)] returns [s[-1]]
    on any forecaster, fitted or not, and leaves the forecaster as it
    was: the stored [last_value_] is unchanged. *)
Theorem forecast_returns_last_and_keeps_state
    (s : list A) (X : option E) (self : DummyForecaster.obj A) :
  s <> [] ->
  exists v, last s = Some v /\
    DummyForecaster._forecast s X self = (inr v, self).
Proof.
  intros Hne. unfold DummyForecaster._forecast.
  by apply py_getitem_minus_one.
Qed.

(** No call other than [fit] makes a forecaster fitted. *)
Lemma do_calls_unfitted (cs : list (BaseForecaster.call A E))
    (s : BaseForecaster.obj A) :
  forallb (fun c => negb (BaseForecaster.is_fit_call c)) cs = true ->
  BaseForecaster.is_fitted s = false ->
  BaseForecaster.is_fitted (BaseForecaster.do_calls cs s) = false.
Proof.
  revert s. induction cs as [|c cs IH]; intros s Hcs Hs; [done|].
  cbn [forallb] in Hcs. apply andb_prop in Hcs as [Hc Hcs].
  cbn [BaseForecaster.do_calls fold_left].
  apply IH; [done|].
  destruct c as [y e|y e|y X]; [done| |].
  - cbn [BaseForecaster.do_call]. unfold BaseForecaster.predict, bind, get.
    by rewrite Hs.
  - cbn [BaseForecaster.do_call].
    unfold BaseForecaster.forecast, BaseForecaster.on_impl.
    by destruct (DummyForecaster._forecast y X (BaseForecaster.impl s)).
Qed.

(** C3. On a forecaster on which [fit] has not been called (a new
    object, after any calls of [predict] and [forecast]), [predict]
    fails with the unfit-model error; it returns no value, in
    particular not [None]. *)
Theorem predict_before_fit_fails
    (cs : list (BaseForecaster.call A E))
    (y : option (list A)) (exog : option E) :
  forallb (fun c => negb (BaseForecaster.is_fit_call c)) cs = true ->
  let s := BaseForecaster.do_calls cs BaseForecaster.__init__ in
  BaseForecaster.predict y exog s = (inl NotFittedError, s).
Proof.
  intros Hcs s.
  pose proof (do_calls_unfitted cs BaseForecaster.__init__ Hcs eq_refl) as Hs.
  fold s in Hs. unfold BaseForecaster.predict, bind, get. by rewrite Hs.
Qed.

(** Through the public methods too, [fit] then [predict] gives the last
    element. *)
Lemma public_fit_then_predict
    (s : list A) (exog : option E)
    (y : option (list A)) (exog' : option E)
    (self : BaseForecaster.obj A) :
  s <> [] ->
  exists v self', last s = Some v /\
    (BaseForecaster.fit s exog ;; BaseForecaster.predict y exog') self
    = (inr (Some v), self').
Proof.
  intros Hne.
  destruct (_fit_run s exog (BaseForecaster.impl self) Hne) as (v & Hv & Hrun).
  exists v. eexists. split; [done|].
  unfold BaseForecaster.fit, BaseForecaster.predict,
    BaseForecaster.on_impl, bind, get, put.
  rewrite Hrun. cbn. reflexivity.
Qed.
End ForecasterClaims.

Lemma fit_then_predict_returns_last_witness :
  (DummyForecaster._fit (E := unit) [3%Z; 1%Z; 4%Z] None ;;
   DummyForecaster._predict (Some [7%Z]) (Some tt))
    DummyForecaster.__init__
  = (inr (Some 4%Z), {| DummyForecaster.last_value_ := Some 4%Z |}).
Proof.
  destruct (fit_then_predict_returns_last (E := unit) [3%Z; 1%Z; 4%Z] None
              (Some [7%Z]) (Some tt) DummyForecaster.__init__)
    as (v & Hv & Hrun); [discriminate|].
  injection Hv as <-. exact Hrun.
Defined.

Lemma forecast_returns_last_and_keeps_state_witness :
  DummyForecaster._forecast (E := unit) [3%Z; 1%Z; 4%Z] None
    DummyForecaster.__init__
  = (inr 4%Z, DummyForecaster.__init__).
Proof.
  destruct (forecast_returns_last_and_keeps_state (E := unit)
              [3%Z; 1%Z; 4%Z] None DummyForecaster.__init__)
    as (v & Hv & Hrun); [discriminate|].
  injection Hv as <-. exact Hrun.
Defined.

Lemma predict_before_fit_fails_witness :
  let cs := [BaseForecaster.CallForecast [2%Z; 5%Z] (@None unit);
             BaseForecaster.CallPredict None None] in
  let s := BaseForecaster.do_calls cs BaseForecaster.__init__ in
  BaseForecaster.predict (E := unit) None None s = (inl NotFittedError, s).
Proof.
  exact (predict_before_fit_fails
           [BaseForecaster.CallForecast [2%Z; 5%Z] (@None unit);
            BaseForecaster.CallPredict None None] None None eq_refl).
Defined.

(** ** The transformer: how the methods run *)

Section TransformerFacts.
Context {num : Type} `{NumOps num}.
Import ScaledLogitSeriesTransformer.

Abbreviation world := (world num).
Abbreviation ndarray := (ndarray num).

Lemma grows_refl (w : world) : grows w w.
Proof. by repeat split. Qed.

Lemma grows_trans (w1 w2 w3 : world) :
  grows w1 w2 -> grows w2 w3 -> grows w1 w3.
Proof.
  intros (Hs1 & Hw1 & Hh1) (Hs2 & Hw2 & Hh2).
  repeat split; [congruence | congruence | by etrans].
Qed.

Lemma grows_lookup (w w' : world) l a :
  grows w w' -> heap w !! l = Some a -> heap w' !! l = Some a.
Proof. intros (_ & _ & Hh) Hl. by eapply lookup_weaken. Qed.

Lemma grows_fresh (w w' : world) l :
  grows w w' -> heap w' !! l = None -> heap w !! l = None.
Proof. intros (_ & _ & Hh) Hl. by eapply lookup_weaken_None. Qed.

Lemma amap_id (a : ndarray) : amap (fun x => x) a = a.
Proof. destruct a as [sh d]. unfold amap. cbn. by rewrite map_id. Qed.

Lemma amap_amap (f g : num -> num) (a : ndarray) :
  amap g (amap f a) = amap (fun x => g (f x)) a.
Proof. unfold amap. cbn. by rewrite map_map. Qed.

Lemma zip_with_map_map {A B C D} (f : B -> C -> D) (g : A -> B)
    (h : A -> C) (l : list A) :
  zip_with f (map g l) (map h l) = map (fun x => f (g x) (h x)) l.
Proof. induction l as [|x l IH]; [done|]. cbn. by rewrite IH. Qed.

(** The address [alloc] returns is fresh, and nothing else changes. *)
Lemma alloc_run (a : ndarray) (w : world) :
  exists r w', alloc a w = (inr r, w') /\
    grows w w' /\ heap w !! r = None /\ heap w' !! r = Some a.
Proof.
  assert (heap w !! fresh (dom (heap w)) = None) as Hfresh
    by (apply not_elem_of_dom, is_fresh).
  eexists _, _. split; [reflexivity|]. cbn.
  repeat split; [by apply insert_subseteq | done | by rewrite lookup_insert_eq].
Qed.

(** Sequencing after an allocating step: what follows runs in a world
    that has grown by one array. *)
Lemma ufunc_bind (f : num -> num) (X : addr) (a : ndarray) {B}
    (k : addr -> M world B) (w : world) (Q : B -> world -> Prop) :
  heap w !! X = Some a ->
  (forall t w1, grows w w1 -> heap w !! t = None ->
                heap w1 !! t = Some (amap f a) ->
                exists r w', k t w1 = (inr r, w') /\ Q r w') ->
  exists r w', bind (ufunc f X) k w = (inr r, w') /\ Q r w'.
Proof.
  intros HX Hk.
  destruct (alloc_run (amap f a) w) as (t & w1 & Hrun & Hg & Hf & Ht).
  destruct (Hk t w1 Hg Hf Ht) as (r & w' & Hkrun & HQ).
  exists r, w'. split; [|done].
  unfold ufunc, bind, deref in *. rewrite HX. rewrite Hrun. done.
Qed.

Lemma ufunc_run (f : num -> num) (X : addr) (a : ndarray) (w : world) :
  heap w !! X = Some a ->
  exists r w', ufunc f X w = (inr r, w') /\
    grows w w' /\ heap w !! r = None /\ heap w' !! r = Some (amap f a).
Proof.
  intros HX.
  destruct (alloc_run (amap f a) w) as (t & w1 & Hrun & Hg & Hf & Ht).
  exists t, w1. split; [|done].
  unfold ufunc, bind, deref. by rewrite HX.
Qed.

Lemma np_divide_run (X Y : addr) (a b : ndarray) (w : world) :
  heap w !! X = Some a -> heap w !! Y = Some b -> shape a = shape b ->
  exists r w', np_divide X Y w = (inr r, w') /\
    grows w w' /\ heap w !! r = None /\
    heap w' !! r = Some {| shape := shape a;
                           data := zip_with num_div (data a) (data b) |}.
Proof.
  intros HX HY Hsh.
  destruct (alloc_run {| shape := shape a;
                         data := zip_with num_div (data a) (data b) |} w)
    as (t & w1 & Hrun & Hg & Hf & Ht).
  exists t, w1. split; [|done].
  unfold np_divide, bind, deref. rewrite HX, HY.
  by destruct (decide (shape a = shape b)).
Qed.

Lemma deepcopy_run (X : addr) (a : ndarray) (w : world) :
  heap w !! X = Some a ->
  exists r w', deepcopy X w = (inr r, w') /\
    grows w w' /\ heap w !! r = None /\ heap w' !! r = Some a.
Proof.
  intros HX.
  destruct (alloc_run a w) as (t & w1 & Hrun & Hg & Hf & Ht).
  exists t, w1. split; [|done].
  unfold deepcopy, bind, deref. by rewrite HX.
Qed.

(** The two checks at the head of [_transform] read the array and leave
    the world alone but for the warnings they issue. *)
Lemma checks_run {B} (X : addr) (a : ndarray) (rest : M world B)
    (w : world) :
  heap w !! X = Some a ->
  (c <- violates_upper X ;;
   when c (warn msg_upper RuntimeWarning) ;;
   c <- violates_lower X ;;
   when c (warn msg_lower RuntimeWarning) ;;
   rest) w
  = rest {| self := self w; heap := heap w;
            warnings := warnings w ++ issued (self w) a |}.
Proof.
  intros HX. destruct w as [[lb ub] h ws]. cbn in HX.
  unfold violates_upper, violates_lower, self_upper_bound,
    self_lower_bound, np_any_ge, np_any_le, issued, above_upper,
    below_lower, operand, deref, when, warn, bind, gets, ret. cbn.
  destruct ub as [b|], lb as [c|]; cbn;
    repeat (rewrite ?HX; cbn;
            match goal with
            | |- context [existsb ?f ?l] => destruct (existsb f l) eqn:?
            | E : existsb _ _ = _ |- _ => rewrite E
            end; cbn);
    rewrite <- ?app_assoc, ?app_nil_r; reflexivity.
Qed.

Create HintDb grow.
Local Hint Resolve grows_lookup grows_fresh grows_trans grows_refl : grow.

(** [_transform] on a live array: it returns normally, the result is a
    new array holding the selected formula of every element, the
    warnings of the two checks are appended, and nothing else changes. *)
Lemma _transform_run {Y} (X : addr) (y : option Y) (a : ndarray)
    (w : world) :
  heap w !! X = Some a ->
  exists r w', _transform X y w = (inr r, w') /\
    self w' = self w /\
    heap w ⊆ heap w' /\
    heap w !! r = None /\
    heap w' !! r = Some (amap (forward (selected (self w))) a) /\
    warnings w' = warnings w ++ issued (self w) a.
Proof.
  intros HX. unfold _transform. rewrite (checks_run X a _ w HX).
  set (w0 := {| self := self w; heap := heap w;
                warnings := warnings w ++ issued (self w) a |}).
  assert (heap w0 !! X = Some a) as HX0 by done.
  enough (exists r w',
    (ub <- self_upper_bound ;; lb <- self_lower_bound ;;
     X_transformed <-
       (if truthy ub && truthy lb then
          a <- operand lb ;; t1 <- np_subtract X a ;;
          b <- operand ub ;; t2 <- np_rsubtract b X ;;
          t3 <- np_divide t1 t2 ;; np_log t3
        else if is_not_None ub then
          b <- operand ub ;; t1 <- np_rsubtract b X ;;
          t2 <- np_log t1 ;; np_negative t2
        else if is_not_None lb then
          a <- operand lb ;; t1 <- np_subtract X a ;; np_log t1
        else deepcopy X) ;;
     ret X_transformed) w0 = (inr r, w') /\
    grows w0 w' /\ heap w0 !! r = None /\
    heap w' !! r = Some (amap (forward (selected (self w))) a))
    as (r & w' & Hrun & (Hs & Hw & Hh) & Hf & Hr).
  { exists r, w'. by repeat split. }
  unfold self_upper_bound, self_lower_bound. rewrite !bind_gets.
  rewrite bind_ret_r. change (self w0) with (self w).
  unfold selected.
  destruct (upper_bound (self w)) as [b|], (lower_bound (self w)) as [c|];
    cbn [truthy is_not_None andb operand].
  - destruct (negb (num_is_zero b) && negb (num_is_zero c));
      rewrite ?bind_ret_l.
    + (* both bounds, both non-zero *)
      unfold np_subtract, np_rsubtract, np_log.
      eapply ufunc_bind; [exact HX0 | intros t1 w1 G1 F1 L1].
      rewrite bind_ret_l.
      eapply ufunc_bind; [eauto with grow | intros t2 w2 G2 F2 L2].
      destruct (np_divide_run t1 t2 _ _ w2 ltac:(eauto with grow) L2 eq_refl)
        as (t3 & w3 & Hdiv & G3 & F3 & L3).
      rewrite (bind_ok _ _ _ _ _ Hdiv).
      destruct (ufunc_run num_log t3 _ w3 L3) as (r & w' & Hrun & G4 & F4 & L4).
      exists r, w'. split; [exact Hrun|].
      split; [eauto 6 with grow|]. split; [eauto 6 with grow|].
      rewrite L4. f_equal. unfold amap. cbn.
      by rewrite zip_with_map_map, map_map.
    + (* both bounds, one of them zero *)
      unfold np_rsubtract, np_log, np_negative.
      eapply ufunc_bind; [exact HX0 | intros t1 w1 G1 F1 L1].
      eapply ufunc_bind; [exact L1 | intros t2 w2 G2 F2 L2].
      destruct (ufunc_run num_neg t2 _ w2 L2) as (r & w' & Hrun & G3 & F3 & L3).
      exists r, w'. split; [exact Hrun|].
      split; [eauto 6 with grow|]. split; [eauto 6 with grow|].
      by rewrite L3, !amap_amap.
  - (* the upper bound alone *)
    rewrite andb_false_r, bind_ret_l. unfold np_rsubtract, np_log, np_negative.
    eapply ufunc_bind; [exact HX0 | intros t1 w1 G1 F1 L1].
    eapply ufunc_bind; [exact L1 | intros t2 w2 G2 F2 L2].
    destruct (ufunc_run num_neg t2 _ w2 L2) as (r & w' & Hrun & G3 & F3 & L3).
    exists r, w'. split; [exact Hrun|].
    split; [eauto 6 with grow|]. split; [eauto 6 with grow|].
    by rewrite L3, !amap_amap.
  - (* the lower bound alone *)
    rewrite bind_ret_l. unfold np_subtract, np_log.
    eapply ufunc_bind; [exact HX0 | intros t1 w1 G1 F1 L1].
    destruct (ufunc_run num_log t1 _ w1 L1) as (r & w' & Hrun & G2 & F2 & L2).
    exists r, w'. split; [exact Hrun|].
    split; [eauto 6 with grow|]. split; [eauto 6 with grow|].
    by rewrite L2, !amap_amap.
  - (* no bound *)
    destruct (deepcopy_run X a w0 HX0) as (r & w' & Hrun & G & F & L).
    exists r, w'. split; [exact Hrun|].
    split; [done|]. split; [done|]. by rewrite amap_id.
Qed.
(** [_inverse_transform] on a live array: the same, with the inverse
    formula and no warning. *)
Lemma _inverse_transform_run {Y} (X : addr) (y : option Y) (a : ndarray)
    (w : world) :
  heap w !! X = Some a ->
  exists r w', _inverse_transform X y w = (inr r, w') /\
    self w' = self w /\
    heap w ⊆ heap w' /\
    heap w !! r = None /\
    heap w' !! r = Some (amap (backward (selected (self w))) a) /\
    warnings w' = warnings w.
Proof.
  intros HX.
  enough (exists r w', _inverse_transform X y w = (inr r, w') /\
    grows w w' /\ heap w !! r = None /\
    heap w' !! r = Some (amap (backward (selected (self w))) a))
    as (r & w' & Hrun & (Hs & Hw & Hh) & Hf & Hr).
  { exists r, w'. by repeat split. }
  unfold _inverse_transform, self_upper_bound, self_lower_bound.
  rewrite !bind_gets, bind_ret_r. unfold selected.
  destruct (upper_bound (self w)) as [b|], (lower_bound (self w)) as [c|];
    cbn [truthy is_not_None andb operand].
  - destruct (negb (num_is_zero b) && negb (num_is_zero c));
      rewrite ?bind_ret_l.
    + (* both bounds, both non-zero *)
      unfold np_exp, np_rmultiply, np_add.
      eapply ufunc_bind; [exact HX | intros e1 w1 G1 F1 L1].
      eapply ufunc_bind; [exact L1 | intros t1 w2 G2 F2 L2].
      rewrite bind_ret_l.
      eapply ufunc_bind; [exact L2 | intros t2 w3 G3 F3 L3].
      eapply ufunc_bind; [eauto 6 with grow | intros e2 w4 G4 F4 L4].
      eapply ufunc_bind; [exact L4 | intros t3 w5 G5 F5 L5].
      destruct (np_divide_run t2 t3 _ _ w5 ltac:(eauto 6 with grow) L5 eq_refl)
        as (r & w' & Hrun & G6 & F6 & L6).
      exists r, w'. split; [exact Hrun|].
      split; [eauto 8 with grow|]. split; [eauto 8 with grow|].
      rewrite L6. f_equal. unfold amap. cbn.
      by rewrite !map_map, zip_with_map_map.
    + (* both bounds, one of them zero *)
      unfold np_negative, np_exp, np_rsubtract.
      eapply ufunc_bind; [exact HX | intros t1 w1 G1 F1 L1].
      eapply ufunc_bind; [exact L1 | intros t2 w2 G2 F2 L2].
      destruct (ufunc_run (fun x => num_sub b x) t2 _ w2 L2)
        as (r & w' & Hrun & G3 & F3 & L3).
      exists r, w'. split; [exact Hrun|].
      split; [eauto 6 with grow|]. split; [eauto 6 with grow|].
      by rewrite L3, !amap_amap.
  - (* the upper bound alone *)
    rewrite andb_false_r, bind_ret_l.
    unfold np_negative, np_exp, np_rsubtract.
    eapply ufunc_bind; [exact HX | intros t1 w1 G1 F1 L1].
    eapply ufunc_bind; [exact L1 | intros t2 w2 G2 F2 L2].
    destruct (ufunc_run (fun x => num_sub b x) t2 _ w2 L2)
      as (r & w' & Hrun & G3 & F3 & L3).
    exists r, w'. split; [exact Hrun|].
    split; [eauto 6 with grow|]. split; [eauto 6 with grow|].
    by rewrite L3, !amap_amap.
  - (* the lower bound alone *)
    unfold np_exp, np_add.
    eapply ufunc_bind; [exact HX | intros t1 w1 G1 F1 L1].
    rewrite bind_ret_l.
    destruct (ufunc_run (fun x => num_add x c) t1 _ w1 L1)
      as (r & w' & Hrun & G2 & F2 & L2).
    exists r, w'. split; [exact Hrun|].
    split; [eauto 6 with grow|]. split; [eauto 6 with grow|].
    by rewrite L2, !amap_amap.
  - (* no bound *)
    destruct (deepcopy_run X a w HX) as (r & w' & Hrun & G & F & L).
    exists r, w'. split; [exact Hrun|].
    split; [done|]. split; [done|]. by rewrite amap_id.
Qed.

(** *** Steps that issue no warning *)

Lemma silent_bind {B C} (c : M world B) (k : B -> M world C) :
  silent c -> (forall b, silent (k b)) -> silent (bind c k).
Proof.
  intros Hc Hk w. unfold bind. specialize (Hc w).
  destruct (c w) as [[e|b] w1]; cbn in *; [done|].
  by rewrite Hk.
Qed.

Lemma silent_ret {B} (b : B) : silent (ret b : M world B).
Proof. done. Qed.

Lemma silent_raise {B} (e : exn) : silent (raise e : M world B).
Proof. done. Qed.

Lemma silent_gets {B} (f : world -> B) : silent (num := num) (gets f).
Proof. done. Qed.

Lemma silent_operand (v : option num) : silent (num := num) (operand v).
Proof. by destruct v. Qed.

Lemma silent_deref (l : addr) : silent (num := num) (deref l).
Proof. intros w. unfold deref. by destruct (heap w !! l). Qed.

Lemma silent_alloc (a : ndarray) : silent (num := num) (alloc a).
Proof. done. Qed.

Lemma silent_ufunc (f : num -> num) (X : addr) : silent (num := num) (ufunc f X).
Proof.
  apply silent_bind; [apply silent_deref | intros; apply silent_alloc].
Qed.

Lemma silent_np_divide (X Y : addr) : silent (num := num) (np_divide X Y).
Proof.
  apply silent_bind; [apply silent_deref | intros a].
  apply silent_bind; [apply silent_deref | intros b].
  destruct (decide (shape a = shape b));
    [apply silent_alloc | apply silent_raise].
Qed.

Lemma silent_deepcopy (X : addr) : silent (num := num) (deepcopy X).
Proof.
  apply silent_bind; [apply silent_deref | intros; apply silent_alloc].
Qed.

Lemma silent_inverse_transform {Y} (X : addr) (y : option Y) :
  silent (num := num) (_inverse_transform X y).
Proof.
  unfold _inverse_transform, self_upper_bound, self_lower_bound,
    np_exp, np_negative, np_add, np_rmultiply, np_rsubtract.
  repeat first
    [ apply silent_ret | apply silent_gets | apply silent_operand
    | apply silent_ufunc | apply silent_np_divide | apply silent_deepcopy
    | apply silent_bind; [|intros ?]
    | match goal with |- silent (if ?c then _ else _) => destruct c end ].
Qed.
End TransformerFacts.

(** ** The transformer: claims that hold for every arithmetic *)

Section TransformerClaims.
Context {num : Type} `{NumOps num} {Y : Type}.
Import ScaledLogitSeriesTransformer.

Abbreviation world := (world num).
Abbreviation ndarray := (ndarray num).

(** C2. The two-bound branch is taken on the truth value of the bounds,
    not on their presence: when both bounds are configured and one of
    them is zero, [_transform] does not apply
    [log((x - a) / (b - x))] but the formula of the next branch, the
    upper-bound one [-log(b - x)], and [_inverse_transform] likewise
    applies [b - exp(-x)].  This is so whichever of the two bounds is
    the zero one. *)
Theorem zero_bound_skips_two_bound_formula
    (X : addr) (y : option Y) (arr : ndarray) (w : world) (a b : num) :
  lower_bound (self w) = Some a ->
  upper_bound (self w) = Some b ->
  num_is_zero a = true \/ num_is_zero b = true ->
  heap w !! X = Some arr ->
  (exists r w', _transform X y w = (inr r, w') /\
     heap w' !! r
     = Some (amap (fun x => num_neg (num_log (num_sub b x))) arr)) /\
  (exists r w', _inverse_transform X y w = (inr r, w') /\
     heap w' !! r
     = Some (amap (fun x => num_sub b (num_exp (num_neg x))) arr)).
Proof.
  intros Hlb Hub Hzero HX.
  assert (selected (self w) = UpperLog b) as Hsel.
  { unfold selected. rewrite Hlb, Hub.
    destruct Hzero as [-> | ->]; [by rewrite andb_false_r | done]. }
  split.
  - destruct (_transform_run X y arr w HX)
      as (r & w' & Hrun & _ & _ & _ & Hr & _).
    rewrite Hsel in Hr. by exists r, w'.
  - destruct (_inverse_transform_run X y arr w HX)
      as (r & w' & Hrun & _ & _ & _ & Hr & _).
    rewrite Hsel in Hr. by exists r, w'.
Qed.

(** C4. [_transform] on an array with elements at or beyond a
    configured bound raises no exception.  It appends one warning for
    the upper bound when some element is [>=] it, then one for the
    lower bound when some element is [<=] it, and returns a new array
    computed by the formula the configuration selects, the same formula
    whether or not a warning was issued. *)
Theorem transform_warns_and_still_computes
    (X : addr) (y : option Y) (arr : ndarray) (w : world) :
  heap w !! X = Some arr ->
  exists r w', _transform X y w = (inr r, w') /\
    warnings w' =
      warnings w
      ++ (if above_upper (self w) arr
          then [Warning msg_upper RuntimeWarning] else [])
      ++ (if below_lower (self w) arr
          then [Warning msg_lower RuntimeWarning] else []) /\
    heap w' !! r = Some (amap (forward (selected (self w))) arr).
Proof.
  intros HX.
  destruct (_transform_run X y arr w HX)
    as (r & w' & Hrun & _ & _ & _ & Hr & Hw).
  exists r, w'. by repeat split.
Qed.

(** C7. With both bounds unset, [_transform] returns an array with the
    shape and elements of [X] that is not [X]: it lives at an address
    that held no array before the call, and [X] is still there.
    Likewise [_inverse_transform]. *)
Theorem no_bounds_returns_a_copy
    (X : addr) (y : option Y) (arr : ndarray) (w : world) :
  lower_bound (self w) = None ->
  upper_bound (self w) = None ->
  heap w !! X = Some arr ->
  (exists r w', _transform X y w = (inr r, w') /\
     heap w' !! r = Some arr /\ heap w' !! X = Some arr /\
     r <> X /\ heap w !! r = None) /\
  (exists r w', _inverse_transform X y w = (inr r, w') /\
     heap w' !! r = Some arr /\ heap w' !! X = Some arr /\
     r <> X /\ heap w !! r = None).
Proof.
  intros Hlb Hub HX.
  assert (selected (self w) = Identity) as Hsel
    by (unfold selected; by rewrite Hlb, Hub).
  split.
  - destruct (_transform_run X y arr w HX)
      as (r & w' & Hrun & _ & Hsub & Hfresh & Hr & _).
    rewrite Hsel in Hr. cbn [forward] in Hr. rewrite amap_id in Hr.
    exists r, w'. repeat split; [done | done | by eapply lookup_weaken | | done].
    intros ->. congruence.
  - destruct (_inverse_transform_run X y arr w HX)
      as (r & w' & Hrun & _ & Hsub & Hfresh & Hr & _).
    rewrite Hsel in Hr. cbn [backward] in Hr. rewrite amap_id in Hr.
    exists r, w'. repeat split; [done | done | by eapply lookup_weaken | | done].
    intros ->. congruence.
Qed.

(** C9. [_inverse_transform] issues no warning, for any configuration
    and any argument, and on an array it applies the inverse formula the
    configuration selects to every element, whatever the elements
    are. *)
Theorem inverse_transform_never_warns
    (X : addr) (y : option Y) (w : world) :
  warnings (snd (_inverse_transform X y w)) = warnings w /\
  (forall arr, heap w !! X = Some arr ->
     exists r w', _inverse_transform X y w = (inr r, w') /\
       heap w' !! r = Some (amap (backward (selected (self w))) arr)).
Proof.
  split; [apply silent_inverse_transform|].
  intros arr HX.
  destruct (_inverse_transform_run X y arr w HX)
    as (r & w' & Hrun & _ & _ & _ & Hr & _).
  by exists r, w'.
Qed.

(** C10. Neither method writes to its argument or to the attributes of
    [self]: after the call the bounds are as before, [X] and every
    other array that was live hold what they held, and the result is
    at an address that held no array before the call. *)
Theorem methods_leave_input_and_bounds_alone
    (X : addr) (y : option Y) (arr : ndarray) (w : world) :
  heap w !! X = Some arr ->
  (exists r w', _transform X y w = (inr r, w') /\
     self w' = self w /\ heap w' !! X = Some arr /\
     heap w ⊆ heap w' /\ heap w !! r = None) /\
  (exists r w', _inverse_transform X y w = (inr r, w') /\
     self w' = self w /\ heap w' !! X = Some arr /\
     heap w ⊆ heap w' /\ heap w !! r = None).
Proof.
  intros HX. split.
  - destruct (_transform_run X y arr w HX)
      as (r & w' & Hrun & Hself & Hsub & Hfresh & _).
    exists r, w'. repeat split; [done | done | by eapply lookup_weaken | done | done].
  - destruct (_inverse_transform_run X y arr w HX)
      as (r & w' & Hrun & Hself & Hsub & Hfresh & _).
    exists r, w'. repeat split; [done | done | by eapply lookup_weaken | done | done].
Qed.
End TransformerClaims.

(** ** The transformer on the reals: the round trip *)

Section TransformerReals.
Context {Y : Type}.
Import ScaledLogitSeriesTransformer.
Local Open Scope R_scope.

Lemma is_zero_R (x : R) : num_is_zero x = true <-> x = 0.
Proof. cbn. destruct (Req_dec_T x 0); split; (done || congruence). Qed.

(** Each inverse formula undoes its forward formula inside the open
    interval of the bounds it uses. *)
Lemma backward_forward_Logit (a b x : R) :
  a < x < b -> backward (Logit a b) (forward (Logit a b) x) = x.
Proof.
  intros [Ha Hb]. cbn.
  rewrite exp_ln by (apply Rdiv_lt_0_compat; lra).
  field. lra.
Qed.

Lemma backward_forward_UpperLog (b x : R) :
  x < b -> backward (UpperLog b) (forward (UpperLog b) x) = x.
Proof.
  intros Hb. cbn. rewrite Ropp_involutive, exp_ln by lra. lra.
Qed.

Lemma backward_forward_LowerLog (a x : R) :
  a < x -> backward (LowerLog a) (forward (LowerLog a) x) = x.
Proof. intros Ha. cbn. rewrite exp_ln by lra. lra. Qed.

Lemma backward_forward (o : obj R) (x : R) :
  inside o x -> backward (selected o) (forward (selected o) x) = x.
Proof.
  unfold inside, selected. intros [Hlo Hhi].
  destruct (upper_bound o) as [b|], (lower_bound o) as [a|].
  - destruct (negb (num_is_zero b) && negb (num_is_zero a)).
    + by apply backward_forward_Logit.
    + by apply backward_forward_UpperLog.
  - by apply backward_forward_UpperLog.
  - by apply backward_forward_LowerLog.
  - done.
Qed.

(** With both bounds set and one of them zero the two formulas are
    different functions: for bounds 0 and 1 they differ at 1/2. *)
Lemma Logit_UpperLog_differ :
  forward (Logit 0 1) (1 / 2) <> forward (UpperLog 1) (1 / 2).
Proof.
  cbn. replace ((1 / 2 - 0) / (1 - 1 / 2)) with 1 by lra.
  replace (1 - 1 / 2) with (/ 2) by lra.
  rewrite ln_1, ln_Rinv by lra. pose proof ln_lt_2. lra.
Qed.

(** C1. For every configuration of the two bounds and every array
    whose elements are strictly inside the open interval of the
    configured bounds, [_inverse_transform] of [_transform] of the array
    returns an array with the same shape and the same elements (on the
    reals, where there is no rounding). *)
Theorem inverse_transform_undoes_transform
    (X : addr) (y y' : option Y) (arr : ndarray R) (w : world R) :
  heap w !! X = Some arr ->
  Forall (inside (self w)) (data arr) ->
  exists r w',
    (t <- _transform X y ;; _inverse_transform t y') w = (inr r, w') /\
    heap w' !! r = Some arr.
Proof.
  intros HX Hin.
  destruct (_transform_run X y arr w HX)
    as (t & w1 & Hrun1 & Hself & _ & _ & Ht & _).
  destruct (_inverse_transform_run t y' _ w1 Ht)
    as (r & w' & Hrun2 & _ & _ & _ & Hr & _).
  exists r, w'. rewrite (bind_ok _ _ _ _ _ Hrun1). split; [done|].
  rewrite Hr, Hself, amap_amap. f_equal.
  destruct arr as [sh d]. unfold amap. cbn in *. f_equal.
  rewrite <- (map_id d) at 2. apply map_ext_Forall.
  eapply Forall_impl; [exact Hin|]. intros x Hx.
  by apply backward_forward.
Qed.

(** C8. With only [lower_bound = 0] set, [_transform] of [[1.0, 10.0]]
    is [[log(1.0), log(10.0)]], the formula [log(x - a)] of each
    element, and [_inverse_transform] of that result is [[1.0, 10.0]]
    again. *)
Theorem lower_bound_zero_example
    (X : addr) (y y' : option Y) (w : world R) :
  self w = __init__ (Some 0) None ->
  heap w !! X = Some (NdArray [2%nat] [1; 10]) ->
  exists t w1, _transform X y w = (inr t, w1) /\
    heap w1 !! t = Some (NdArray [2%nat] [ln 1; ln 10]) /\
    exists r w2, _inverse_transform t y' w1 = (inr r, w2) /\
      heap w2 !! r = Some (NdArray [2%nat] [1; 10]).
Proof.
  intros Hself HX.
  destruct (_transform_run X y _ w HX)
    as (t & w1 & Hrun1 & Hself1 & _ & _ & Ht & _).
  destruct (_inverse_transform_run t y' _ w1 Ht)
    as (r & w2 & Hrun2 & _ & _ & _ & Hr & _).
  rewrite Hself1, amap_amap in Hr. rewrite Hself in Ht, Hr.
  exists t, w1. split; [done|]. split.
  - rewrite Ht. unfold amap. cbn. by rewrite !Rminus_0_r.
  - exists r, w2. split; [done|].
    rewrite Hr. unfold amap. cbn.
    rewrite !Rminus_0_r, !Rplus_0_r, !exp_ln by lra. done.
Qed.
End TransformerReals.

(** ** The claims at concrete inputs *)

Lemma inverse_transform_undoes_transform_witness :
  let w := Examples.world_of ScaledLogitSeriesTransformer._get_test_params
             Examples.inside_test in
  exists r w',
    (t <- ScaledLogitSeriesTransformer._transform 0%nat (@None unit) ;;
     ScaledLogitSeriesTransformer._inverse_transform t (@None unit)) w
    = (inr r, w') /\
    ScaledLogitSeriesTransformer.heap w' !! r = Some Examples.inside_test.
Proof.
  apply inverse_transform_undoes_transform.
  - reflexivity.
  - unfold ScaledLogitSeriesTransformer.inside. cbn.
    repeat constructor; lra.
Defined.

Lemma zero_bound_skips_two_bound_formula_witness :
  let o := ScaledLogitSeriesTransformer.__init__ (Some 0%R) (Some 1%R) in
  let w := Examples.world_of o Examples.one_half in
  (exists r w',
     ScaledLogitSeriesTransformer._transform 0%nat (@None unit) w
     = (inr r, w') /\
     ScaledLogitSeriesTransformer.heap w' !! r
     = Some (ScaledLogitSeriesTransformer.amap
               (fun x => num_neg (num_log (num_sub 1%R x)))
               Examples.one_half)) /\
  (exists r w',
     ScaledLogitSeriesTransformer._inverse_transform 0%nat (@None unit) w
     = (inr r, w') /\
     ScaledLogitSeriesTransformer.heap w' !! r
     = Some (ScaledLogitSeriesTransformer.amap
               (fun x => num_sub 1%R (num_exp (num_neg x)))
               Examples.one_half)).
Proof.
  apply (zero_bound_skips_two_bound_formula (Y := unit) 0%nat None
           Examples.one_half _ 0%R 1%R);
    [reflexivity | reflexivity | | reflexivity].
  left. by apply is_zero_R.
Defined.

Lemma transform_warns_and_still_computes_witness :
  let o := ScaledLogitSeriesTransformer.__init__ None (Some 100%R) in
  let w := Examples.world_of o Examples.at_and_above_100 in
  exists r w',
    ScaledLogitSeriesTransformer._transform 0%nat (@None unit) w
    = (inr r, w') /\
    ScaledLogitSeriesTransformer.warnings w' =
      ScaledLogitSeriesTransformer.warnings w
      ++ (if ScaledLogitSeriesTransformer.above_upper o
               Examples.at_and_above_100
          then [ScaledLogitSeriesTransformer.Warning
                  ScaledLogitSeriesTransformer.msg_upper
                  ScaledLogitSeriesTransformer.RuntimeWarning]
          else [])
      ++ (if ScaledLogitSeriesTransformer.below_lower o
               Examples.at_and_above_100
          then [ScaledLogitSeriesTransformer.Warning
                  ScaledLogitSeriesTransformer.msg_lower
                  ScaledLogitSeriesTransformer.RuntimeWarning]
          else []) /\
    ScaledLogitSeriesTransformer.heap w' !! r
    = Some (ScaledLogitSeriesTransformer.amap
              (ScaledLogitSeriesTransformer.forward
                 (ScaledLogitSeriesTransformer.selected o))
              Examples.at_and_above_100).
Proof.
  apply (transform_warns_and_still_computes (Y := unit) 0%nat None
           Examples.at_and_above_100
           (Examples.world_of
              (ScaledLogitSeriesTransformer.__init__ None (Some 100%R))
              Examples.at_and_above_100)).
  reflexivity.
Defined.

(** At that input the upper-bound warning is the one issued. *)
Lemma at_and_above_100_issued :
  ScaledLogitSeriesTransformer.issued
    (ScaledLogitSeriesTransformer.__init__ None (Some 100%R))
    Examples.at_and_above_100
  = [ScaledLogitSeriesTransformer.Warning
       ScaledLogitSeriesTransformer.msg_upper
       ScaledLogitSeriesTransformer.RuntimeWarning].
Proof.
  unfold ScaledLogitSeriesTransformer.issued,
    ScaledLogitSeriesTransformer.above_upper,
    ScaledLogitSeriesTransformer.below_lower. cbn.
  destruct (Rle_dec 100 100) as [_|Hn]; [done | exfalso; lra].
Qed.

Lemma no_bounds_returns_a_copy_witness :
  let o := ScaledLogitSeriesTransformer.__init__ None None in
  let w := Examples.world_of o Examples.one_and_ten in
  (exists r w',
     ScaledLogitSeriesTransformer._transform 0%nat (@None unit) w
     = (inr r, w') /\
     ScaledLogitSeriesTransformer.heap w' !! r = Some Examples.one_and_ten /\
     ScaledLogitSeriesTransformer.heap w' !! 0%nat
     = Some Examples.one_and_ten /\
     r <> 0%nat /\ ScaledLogitSeriesTransformer.heap w !! r = None) /\
  (exists r w',
     ScaledLogitSeriesTransformer._inverse_transform 0%nat (@None unit) w
     = (inr r, w') /\
     ScaledLogitSeriesTransformer.heap w' !! r = Some Examples.one_and_ten /\
     ScaledLogitSeriesTransformer.heap w' !! 0%nat
     = Some Examples.one_and_ten /\
     r <> 0%nat /\ ScaledLogitSeriesTransformer.heap w !! r = None).
Proof.
  apply (no_bounds_returns_a_copy (Y := unit) 0%nat None
           Examples.one_and_ten
           (Examples.world_of
              (ScaledLogitSeriesTransformer.__init__ None None)
              Examples.one_and_ten)); reflexivity.
Defined.

Lemma inverse_transform_never_warns_witness :
  let o := ScaledLogitSeriesTransformer._get_test_params in
  let w := Examples.world_of o Examples.one_and_ten in
  exists r w',
    ScaledLogitSeriesTransformer._inverse_transform 0%nat (@None unit) w
    = (inr r, w') /\
    ScaledLogitSeriesTransformer.heap w' !! r
    = Some (ScaledLogitSeriesTransformer.amap
              (ScaledLogitSeriesTransformer.backward
                 (ScaledLogitSeriesTransformer.selected o))
              Examples.one_and_ten).
Proof.
  apply (proj2 (inverse_transform_never_warns (Y := unit) 0%nat None
                  (Examples.world_of
                     ScaledLogitSeriesTransformer._get_test_params
                     Examples.one_and_ten))).
  reflexivity.
Defined.

Lemma methods_leave_input_and_bounds_alone_witness :
  let o := ScaledLogitSeriesTransformer._get_test_params in
  let w := Examples.world_of o Examples.inside_test in
  (exists r w',
     ScaledLogitSeriesTransformer._transform 0%nat (@None unit) w
     = (inr r, w') /\
     ScaledLogitSeriesTransformer.self w' = o /\
     ScaledLogitSeriesTransformer.heap w' !! 0%nat
     = Some Examples.inside_test /\
     ScaledLogitSeriesTransformer.heap w
     ⊆ ScaledLogitSeriesTransformer.heap w' /\
     ScaledLogitSeriesTransformer.heap w !! r = None) /\
  (exists r w',
     ScaledLogitSeriesTransformer._inverse_transform 0%nat (@None unit) w
     = (inr r, w') /\
     ScaledLogitSeriesTransformer.self w' = o /\
     ScaledLogitSeriesTransformer.heap w' !! 0%nat
     = Some Examples.inside_test /\
     ScaledLogitSeriesTransformer.heap w
     ⊆ ScaledLogitSeriesTransformer.heap w' /\
     ScaledLogitSeriesTransformer.heap w !! r = None).
Proof.
  apply (methods_leave_input_and_bounds_alone (Y := unit) 0%nat None
           Examples.inside_test
           (Examples.world_of ScaledLogitSeriesTransformer._get_test_params
              Examples.inside_test)).
  reflexivity.
Defined.

Lemma lower_bound_zero_example_witness :
  let o := ScaledLogitSeriesTransformer.__init__ (Some 0%R) None in
  let w := Examples.world_of o Examples.one_and_ten in
  exists t w1,
    ScaledLogitSeriesTransformer._transform 0%nat (@None unit) w
    = (inr t, w1) /\
    ScaledLogitSeriesTransformer.heap w1 !! t
    = Some (ScaledLogitSeriesTransformer.NdArray [2%nat]
              [ln 1; ln 10]%R) /\
    exists r w2,
      ScaledLogitSeriesTransformer._inverse_transform t (@None unit) w1
      = (inr r, w2) /\
      ScaledLogitSeriesTransformer.heap w2 !! r
      = Some Examples.one_and_ten.
Proof.
  apply (lower_bound_zero_example (Y := unit) 0%nat None None
           (Examples.world_of
              (ScaledLogitSeriesTransformer.__init__ (Some 0%R) None)
              Examples.one_and_ten)); reflexivity.
Defined.

(** ** Runs on formal expressions *)

Section Runs.
Import ScaledLogitSeriesTransformer Examples.

(** Both bounds non-zero: the scaled logit, no warning inside the bounds. *)
Example run_transform_two_bounds :
  observe (_transform 0%nat (@None unit)
             (term_world (Some (-1000000)%Z) (Some 1000000%Z) [0%Z; 500%Z]))
  = (inr [Log (Div (Sub (Lit 0) (Lit (-1000000)))
                   (Sub (Lit 1000000) (Lit 0)));
          Log (Div (Sub (Lit 500) (Lit (-1000000)))
                   (Sub (Lit 1000000) (Lit 500)))],
     []).
Proof. vm_compute. reflexivity. Qed.

Example run_inverse_transform_two_bounds :
  observe (_inverse_transform 0%nat (@None unit)
             (term_world (Some (-1000000)%Z) (Some 1000000%Z) [7%Z]))
  = (inr [Div (Add (Mul (Lit 1000000) (Exp (Lit 7))) (Lit (-1000000)))
              (Add (Exp (Lit 7)) (Lit 1))],
     []).
Proof. vm_compute. reflexivity. Qed.

(** A lower bound of zero with an upper bound of 100: the upper-bound
    formula runs, and the elements at and above 100 are warned about. *)
Example run_transform_zero_lower_bound :
  observe (_transform 0%nat (@None unit)
             (term_world (Some 0%Z) (Some 100%Z) [100%Z; 150%Z]))
  = (inr [Neg (Log (Sub (Lit 100) (Lit 100)));
          Neg (Log (Sub (Lit 100) (Lit 150)))],
     [Warning msg_upper RuntimeWarning]).
Proof. vm_compute. reflexivity. Qed.

(** An upper bound of zero with a lower bound of -5: the upper-bound
    formula again, with the zero bound in it. *)
Example run_transform_zero_upper_bound :
  observe (_transform 0%nat (@None unit)
             (term_world (Some (-5)%Z) (Some 0%Z) [(-1)%Z]))
  = (inr [Neg (Log (Sub (Lit 0) (Lit (-1))))], []).
Proof. vm_compute. reflexivity. Qed.

Example run_inverse_transform_zero_upper_bound :
  observe (_inverse_transform 0%nat (@None unit)
             (term_world (Some (-5)%Z) (Some 0%Z) [3%Z]))
  = (inr [Sub (Lit 0) (Exp (Neg (Lit 3)))], []).
Proof. vm_compute. reflexivity. Qed.

(** The lower bound alone, violated by the first element. *)
Example run_transform_lower_bound :
  observe (_transform 0%nat (@None unit)
             (term_world (Some 0%Z) None [0%Z; 10%Z]))
  = (inr [Log (Sub (Lit 0) (Lit 0)); Log (Sub (Lit 10) (Lit 0))],
     [Warning msg_lower RuntimeWarning]).
Proof. vm_compute. reflexivity. Qed.

(** Both bounds violated: two warnings, the upper one first. *)
Example run_transform_both_violated :
  snd (observe (_transform 0%nat (@None unit)
                  (term_world (Some 1%Z) (Some 9%Z) [0%Z; 10%Z])))
  = [Warning msg_upper RuntimeWarning; Warning msg_lower RuntimeWarning].
Proof. vm_compute. reflexivity. Qed.

(** No bound: the elements as they are, at a new address. *)
Example run_transform_no_bound :
  fst (_transform 0%nat (@None unit) (term_world None None [4%Z; 2%Z]))
  = inr 1%nat /\
  observe (_transform 0%nat (@None unit) (term_world None None [4%Z; 2%Z]))
  = (inr [Lit 4; Lit 2], []).
Proof. vm_compute. split; reflexivity. Qed.

(** A reference to no array is the one way a method of the model fails. *)
Example run_transform_invalid_ref :
  fst (_transform 5%nat (@None unit) (term_world None None [4%Z]))
  = inl InvalidRef.
Proof. vm_compute. reflexivity. Qed.
End Runs.

(** * Further properties of the code *)

(** ** The forecaster *)

Section ForecasterMore.
Context {A E : Type}.
Import DummyForecaster.

Lemma py_getitem_state {St} (l : list A) (i : Z) (s : St) :
  snd (py_getitem l i s) = s.
Proof.
  unfold py_getitem.
  destruct (_ || _)%bool; [done|]. by destruct (l !! _).
Qed.

(** X1. On an empty series both [_fit] and [_forecast] raise
    [IndexError], and the forecaster keeps the [last_value_] it had. *)
Theorem empty_series_raises_IndexError
    (exog X : option E) (self : obj A) :
  _fit [] exog self = (inl IndexError, self) /\
  _forecast [] X self = (inl IndexError, self).
Proof.
  split; [apply _fit_empty|].
  unfold _forecast. apply py_getitem_empty.
Qed.

(** X2. [_forecast(y)] has the outcome of [_fit(y)] followed by
    [_predict]: the same value on a non-empty series, the same exception
    on an empty one, whatever the state of the forecaster and the other
    arguments. *)
Theorem forecast_agrees_with_fit_then_predict
    (y : list A) (X exog exog' : option E) (y' : option (list A))
    (self self' : obj A) :
  sum_map (fun e : exn => e) Some (fst (_forecast y X self))
  = fst ((_fit y exog ;; _predict y' exog') self').
Proof.
  destruct y as [|x y].
  - unfold _forecast.
    rewrite (bind_raise _ _ _ _ _ (_fit_empty exog self')).
    by rewrite py_getitem_empty.
  - destruct (_fit_run (x :: y) exog self' ltac:(done)) as (v & Hv & Hrun).
    rewrite (bind_ok _ _ _ _ _ Hrun).
    destruct (py_getitem_minus_one (St := obj A) (x :: y) self ltac:(done))
      as (v' & Hv' & Hrun').
    unfold _forecast. rewrite Hrun'. cbn. congruence.
Qed.

Lemma do_call_last_value (c : DummyCalls.call A E) (s : obj A) :
  last_value_ (DummyCalls.do_call c s)
  = DummyCalls.last_fitted [c] (last_value_ s).
Proof.
  destruct c as [y e|y e|y X]; cbn.
  - destruct y as [|x y].
    + by rewrite _fit_empty.
    + destruct (_fit_run (x :: y) e s ltac:(done)) as (v & Hv & Hrun).
      rewrite Hrun. cbn [snd last_value_]. by rewrite Hv.
  - done.
  - unfold _forecast. by rewrite py_getitem_state.
Qed.

(** X3. After any sequence of calls [_predict] returns, without raising
    and without changing the forecaster, the last observation of the
    latest non-empty series given to [_fit]; when there has been none it
    returns what the forecaster held at the start, [None] for a new
    object.  Calls of [_predict] and [_forecast] and a [_fit] that raised
    on an empty series do not count. *)
Theorem predict_returns_last_fitted
    (cs : list (DummyCalls.call A E)) (s : obj A)
    (y : option (list A)) (exog : option E) :
  _predict y exog (DummyCalls.do_calls cs s)
  = (inr (DummyCalls.last_fitted cs (last_value_ s)),
     DummyCalls.do_calls cs s).
Proof.
  unfold _predict, gets. f_equal. f_equal.
  revert s. induction cs as [|c cs IH]; intros s; [done|].
  cbn [DummyCalls.do_calls DummyCalls.last_fitted fold_left].
  fold (DummyCalls.do_calls cs (DummyCalls.do_call c s)).
  rewrite IH, do_call_last_value. reflexivity.
Qed.
End ForecasterMore.

(** ** The transformer, for every arithmetic *)

Section TransformerMore.
Context {num : Type} `{NumOps num} {Y : Type}.
Import ScaledLogitSeriesTransformer.

Abbreviation world := (world num).
Abbreviation ndarray := (ndarray num).

(** X4. Both methods return an array of the shape of their argument,
    with as many elements, in every configuration. *)
Theorem methods_preserve_shape
    (X : addr) (y : option Y) (arr : ndarray) (w : world) :
  heap w !! X = Some arr ->
  (exists r w' out, _transform X y w = (inr r, w') /\
     heap w' !! r = Some out /\
     shape out = shape arr /\ length (data out) = length (data arr)) /\
  (exists r w' out, _inverse_transform X y w = (inr r, w') /\
     heap w' !! r = Some out /\
     shape out = shape arr /\ length (data out) = length (data arr)).
Proof.
  intros HX. split.
  - destruct (_transform_run X y arr w HX)
      as (r & w' & Hrun & _ & _ & _ & Hr & _).
    exists r, w', (amap (forward (selected (self w))) arr).
    repeat split; [done | done | apply length_map].
  - destruct (_inverse_transform_run X y arr w HX)
      as (r & w' & Hrun & _ & _ & _ & Hr & _).
    exists r, w', (amap (backward (selected (self w))) arr).
    repeat split; [done | done | apply length_map].
Qed.

(** X5. Two calls of [_transform] on the same array return two
    different new arrays with the same contents, and the warnings of the
    checks are issued at each call. *)
Theorem transform_twice_gives_two_arrays
    (X : addr) (y y' : option Y) (arr : ndarray) (w : world) :
  heap w !! X = Some arr ->
  exists r1 r2 w' out,
    (r1 <- _transform X y ;; r2 <- _transform X y' ;; ret (r1, r2)) w
    = (inr (r1, r2), w') /\
    r1 <> r2 /\ r1 <> X /\ r2 <> X /\
    heap w' !! r1 = Some out /\ heap w' !! r2 = Some out /\
    heap w' !! X = Some arr /\
    warnings w' = warnings w ++ issued (self w) arr ++ issued (self w) arr.
Proof.
  intros HX.
  destruct (_transform_run X y arr w HX)
    as (r1 & w1 & Hrun1 & Hself1 & Hsub1 & Hfresh1 & Hr1 & Hw1).
  assert (heap w1 !! X = Some arr) as HX1 by (by eapply lookup_weaken).
  destruct (_transform_run X y' arr w1 HX1)
    as (r2 & w2 & Hrun2 & Hself2 & Hsub2 & Hfresh2 & Hr2 & Hw2).
  exists r1, r2, w2, (amap (forward (selected (self w))) arr).
  rewrite (bind_ok _ _ _ _ _ Hrun1), (bind_ok _ _ _ _ _ Hrun2).
  rewrite Hself1 in Hr2, Hw2.
  repeat split.
  - intros ->. congruence.
  - intros ->. congruence.
  - intros ->. congruence.
  - by eapply lookup_weaken.
  - done.
  - by eapply lookup_weaken.
  - by rewrite Hw2, Hw1, <- app_assoc.
Qed.
End TransformerMore.

(** ** The transformer on the reals *)

Section TransformerRealsMore.
Context {Y : Type}.
Import ScaledLogitSeriesTransformer Bounds.
Local Open Scope R_scope.

Lemma is_zero_R_false (x : R) : num_is_zero x = false <-> x <> 0.
Proof.
  pose proof (is_zero_R x) as Hz.
  destruct (num_is_zero x); split; intros; (done || tauto || intuition congruence).
Qed.

Lemma existsb_false_Forall {A} (f : A -> bool) (l : list A) :
  existsb f l = false <-> Forall (fun x => f x = false) l.
Proof.
  induction l as [|x l IH]; cbn; [by split|].
  rewrite orb_false_iff, IH, Forall_cons. done.
Qed.

Lemma geb_R_false (x b : R) : num_geb x b = false <-> x < b.
Proof. cbn. destruct (Rle_dec b x); split; (done || lra). Qed.

Lemma leb_R_false (x a : R) : num_leb x a = false <-> a < x.
Proof. cbn. destruct (Rle_dec x a); split; (done || lra). Qed.

(** No warning is due exactly when every element is strictly inside the
    configured bounds. *)
Lemma issued_nil_iff (o : obj R) (arr : ndarray R) :
  issued o arr = [] <-> Forall (inside o) (data arr).
Proof.
  unfold issued, above_upper, below_lower, inside.
  assert (Forall (fun x =>
            match lower_bound o with Some a => a < x | None => True end /\
            match upper_bound o with Some b => x < b | None => True end)
            (data arr)
          <-> Forall (fun x => match lower_bound o with
                               | Some a => a < x | None => True end) (data arr)
              /\ Forall (fun x => match upper_bound o with
                                  | Some b => x < b | None => True end) (data arr))
    as -> by apply Forall_and.
  destruct (upper_bound o) as [b|], (lower_bound o) as [a|].
  - destruct (existsb (fun x => num_geb x b) _) eqn:Hu;
      [|destruct (existsb (fun x => num_leb x a) _) eqn:Hl].
    + split; [done|]. intros [_ Hb].
      apply not_false_iff_true in Hu. exfalso. apply Hu.
      apply existsb_false_Forall.
      eapply Forall_impl; [exact Hb|]. intros x. apply geb_R_false.
    + split; [done|]. intros [Ha _].
      apply not_false_iff_true in Hl. exfalso. apply Hl.
      apply existsb_false_Forall.
      eapply Forall_impl; [exact Ha|]. intros x. apply leb_R_false.
    + split; [|done]. intros _.
      apply existsb_false_Forall in Hu, Hl. split.
      * eapply Forall_impl; [exact Hl|]. intros x. apply leb_R_false.
      * eapply Forall_impl; [exact Hu|]. intros x. apply geb_R_false.
  - destruct (existsb _ _) eqn:Hu.
    + split; [done|]. intros [_ Hb].
      apply not_false_iff_true in Hu. exfalso. apply Hu.
      apply existsb_false_Forall.
      eapply Forall_impl; [exact Hb|]. intros x. apply geb_R_false.
    + split; [|done]. intros _.
      apply existsb_false_Forall in Hu. split.
      * by apply Forall_forall.
      * eapply Forall_impl; [exact Hu|]. intros x. apply geb_R_false.
  - destruct (existsb _ _) eqn:Hl.
    + split; [done|]. intros [Ha _].
      apply not_false_iff_true in Hl. exfalso. apply Hl.
      apply existsb_false_Forall.
      eapply Forall_impl; [exact Ha|]. intros x. apply leb_R_false.
    + split; [|done]. intros _.
      apply existsb_false_Forall in Hl. split.
      * eapply Forall_impl; [exact Hl|]. intros x. apply leb_R_false.
      * by apply Forall_forall.
  - split; [|done]. intros _. split; by apply Forall_forall.
Qed.

(** X6. [_transform] issues no warning exactly when every element of
    its argument is strictly inside the configured bounds: an element
    equal to a bound is warned about, and with no bound nothing is. *)
Theorem transform_silent_iff_inside
    (X : addr) (y : option Y) (arr : ndarray R) (w : world R) :
  heap w !! X = Some arr ->
  exists r w', _transform X y w = (inr r, w') /\
    (warnings w' = warnings w <-> Forall (inside (self w)) (data arr)).
Proof.
  intros HX.
  destruct (_transform_run X y arr w HX)
    as (r & w' & Hrun & _ & _ & _ & _ & Hw).
  exists r, w'. split; [done|].
  rewrite <- issued_nil_iff, Hw. split.
  - intros Heq. rewrite <- (app_nil_r (warnings w)) in Heq at 2.
    by apply app_inv_head in Heq.
  - intros ->. by rewrite app_nil_r.
Qed.








(** X9. With both bounds set, [a < b], and one of them zero, the lower
    bound does not hold for what [_inverse_transform] returns: every
    element [x <= -log(b - a)] is sent to a value [<= a].  The value is
    still below the upper bound. *)
Theorem zero_bound_inverse_transform_leaves_bounds
    (X : addr) (y : option Y) (arr : ndarray R) (w : world R) (a b : R) :
  lower_bound (self w) = Some a ->
  upper_bound (self w) = Some b ->
  a = 0 \/ b = 0 ->
  a < b ->
  heap w !! X = Some arr ->
  Forall (fun x => x <= - ln (b - a)) (data arr) ->
  exists r w' out, _inverse_transform X y w = (inr r, w') /\
    heap w' !! r = Some out /\
    length (data out) = length (data arr) /\
    Forall (fun v => v <= a /\ v < b) (data out).
Proof.
  intros Hlb Hub Hzero Hab HX Hsmall.
  assert (selected (self w) = UpperLog b) as Hsel.
  { unfold selected. rewrite Hlb, Hub.
    destruct Hzero as [Hz | Hz]; apply is_zero_R in Hz; rewrite Hz;
      [by rewrite andb_false_r | done]. }
  destruct (_inverse_transform_run X y arr w HX)
    as (r & w' & Hrun & _ & _ & _ & Hr & _).
  rewrite Hsel in Hr.
  exists r, w', (amap (backward (UpperLog b)) arr).
  repeat split; [done | done | apply length_map |].
  unfold amap. cbn [data]. apply Forall_map.
  eapply Forall_impl; [exact Hsmall|]. intros x Hx. cbn.
  pose proof (exp_pos (- x)) as He.
  assert (b - a <= exp (- x)) as Hle.
  { rewrite <- (exp_ln (b - a)) by lra.
    destruct (Rle_lt_or_eq_dec _ _ Hx) as [Hlt | ->].
    - left. apply exp_increasing. lra.
    - right. by rewrite Ropp_involutive. }
  lra.
Qed.




(** X11. With both bounds set and one of them zero the lower bound
    takes no part in the formulas, but it does in the check: on an array
    whose elements are all below the upper bound the round trip
    [_inverse_transform] of [_transform] gives the array back, also for
    elements at or below the lower bound, and when there is such an
    element the lower-bound warning, and only that one, has been
    issued. *)
Theorem zero_bound_round_trip_below_lower
    (X : addr) (y y' : option Y) (arr : ndarray R) (w : world R) (a b : R) :
  lower_bound (self w) = Some a ->
  upper_bound (self w) = Some b ->
  a = 0 \/ b = 0 ->
  heap w !! X = Some arr ->
  Forall (fun x => x < b) (data arr) ->
  exists r w',
    (t <- _transform X y ;; _inverse_transform t y') w = (inr r, w') /\
    heap w' !! r = Some arr /\
    (Exists (fun x => x <= a) (data arr) ->
     warnings w' = warnings w ++ [Warning msg_lower RuntimeWarning]).
Proof.
  intros Hlb Hub Hzero HX Hbelow.
  assert (selected (self w) = UpperLog b) as Hsel.
  { unfold selected. rewrite Hlb, Hub.
    destruct Hzero as [Hz | Hz]; apply is_zero_R in Hz; rewrite Hz;
      [by rewrite andb_false_r | done]. }
  destruct (_transform_run X y arr w HX)
    as (t & w1 & Hrun1 & Hself & _ & _ & Ht & Hw1).
  destruct (_inverse_transform_run t y' _ w1 Ht)
    as (r & w' & Hrun2 & _ & _ & _ & Hr & Hw2).
  exists r, w'. rewrite (bind_ok _ _ _ _ _ Hrun1). split; [done|]. split.
  - rewrite Hr, Hself, Hsel, amap_amap. f_equal.
    destruct arr as [sh d]. unfold amap. cbn in *. f_equal.
    rewrite <- (map_id d) at 2. apply map_ext_Forall.
    eapply Forall_impl; [exact Hbelow|]. intros x Hx.
    by apply backward_forward_UpperLog.
  - intros Hex. rewrite Hw2, Hw1. f_equal.
    unfold issued, above_upper, below_lower. rewrite Hlb, Hub.
    assert (existsb (fun x => num_geb x b) (data arr) = false) as ->.
    { apply existsb_false_Forall.
      eapply Forall_impl; [exact Hbelow|]. intros x. apply geb_R_false. }
    assert (existsb (fun x => num_leb x a) (data arr) = true) as ->; [|done].
    apply existsb_exists. apply Exists_exists in Hex as (x & Hx & Hle).
    exists x. split; [by apply list_elem_of_In|].
    cbn. by destruct (Rle_dec x a).
Qed.

Lemma forward_Logit_odd (c x : R) :
  - c < x < c ->
  forward (Logit (- c) c) (- x) = - forward (Logit (- c) c) x.
Proof.
  intros [Hlo Hhi]. cbn.
  replace ((- x - - c) / (c - - x)) with (/ ((x - - c) / (c - x)))
    by (field; lra).
  apply ln_Rinv. apply Rdiv_lt_0_compat; lra.
Qed.

Lemma selected_test_params :
  selected _get_test_params = Logit (- 10 ^ 6) (10 ^ 6).
Proof.
  unfold selected, _get_test_params, __init__. cbn [upper_bound lower_bound].
  assert (num_is_zero (10 ^ 6) = false) as ->
    by (apply is_zero_R_false; lra).
  assert (num_is_zero (- 10 ^ 6) = false) as ->
    by (apply is_zero_R_false; lra).
  done.
Qed.

(** X12. With the bounds of [_get_test_params], which are opposite
    numbers, [_transform] is odd: on the array of the opposites of the
    elements of [arr], all inside the bounds, it returns the opposites of
    what it returns on [arr]. *)
Theorem test_params_transform_is_odd
    (X X' : addr) (y : option Y) (arr : ndarray R) (w : world R) :
  self w = _get_test_params ->
  heap w !! X = Some arr ->
  heap w !! X' = Some (amap Ropp arr) ->
  Forall (inside _get_test_params) (data arr) ->
  exists r w1 r' w2 out,
    _transform X y w = (inr r, w1) /\
    _transform X' y w = (inr r', w2) /\
    heap w1 !! r = Some out /\
    heap w2 !! r' = Some (amap Ropp out).
Proof.
  intros Hself HX HX' Hin.
  destruct (_transform_run X y arr w HX)
    as (r & w1 & Hrun1 & _ & _ & _ & Hr & _).
  destruct (_transform_run X' y _ w HX')
    as (r' & w2 & Hrun2 & _ & _ & _ & Hr' & _).
  exists r, w1, r', w2, (amap (forward (selected (self w))) arr).
  repeat split; [done | done | done |].
  rewrite Hr', !amap_amap. f_equal.
  destruct arr as [sh d]. unfold amap. cbn in *. f_equal.
  apply map_ext_Forall. eapply Forall_impl; [exact Hin|].
  intros x Hx. rewrite Hself, selected_test_params.
  apply forward_Logit_odd. exact Hx.
Qed.
End TransformerRealsMore.

(** ** The further properties at concrete inputs *)

Section MoreWitnesses.
Import ScaledLogitSeriesTransformer.
Local Open Scope R_scope.

Lemma methods_preserve_shape_witness :
  let w := Examples.world_of _get_test_params Examples.inside_test in
  (exists r w' out, _transform 0%nat (@None unit) w = (inr r, w') /\
     heap w' !! r = Some out /\
     shape out = [2%nat; 2%nat] /\ length (data out) = 4%nat) /\
  (exists r w' out, _inverse_transform 0%nat (@None unit) w = (inr r, w') /\
     heap w' !! r = Some out /\
     shape out = [2%nat; 2%nat] /\ length (data out) = 4%nat).
Proof.
  apply (methods_preserve_shape (Y := unit) 0%nat None Examples.inside_test
           (Examples.world_of _get_test_params Examples.inside_test)).
  reflexivity.
Defined.

Lemma transform_twice_gives_two_arrays_witness :
  let o := __init__ None (Some 100) in
  let w := Examples.world_of o Examples.at_and_above_100 in
  exists r1 r2 w' out,
    (r1 <- _transform 0%nat (@None unit) ;;
     r2 <- _transform 0%nat (@None unit) ;; ret (r1, r2)) w
    = (inr (r1, r2), w') /\
    r1 <> r2 /\ r1 <> 0%nat /\ r2 <> 0%nat /\
    heap w' !! r1 = Some out /\ heap w' !! r2 = Some out /\
    heap w' !! 0%nat = Some Examples.at_and_above_100 /\
    warnings w' = warnings w ++ issued o Examples.at_and_above_100
                             ++ issued o Examples.at_and_above_100.
Proof.
  apply (transform_twice_gives_two_arrays (Y := unit) 0%nat None None
           Examples.at_and_above_100
           (Examples.world_of (__init__ None (Some 100))
              Examples.at_and_above_100)).
  reflexivity.
Defined.

Lemma transform_silent_iff_inside_witness :
  let o := __init__ None (Some 100) in
  let w := Examples.world_of o Examples.at_and_above_100 in
  exists r w', _transform 0%nat (@None unit) w = (inr r, w') /\
    (warnings w' = warnings w
     <-> Forall (inside o) (data Examples.at_and_above_100)).
Proof.
  apply (transform_silent_iff_inside (Y := unit) 0%nat None
           Examples.at_and_above_100
           (Examples.world_of (__init__ None (Some 100))
              Examples.at_and_above_100)).
  reflexivity.
Defined.



Lemma zero_bound_inverse_transform_leaves_bounds_witness :
  let arr := NdArray [2%nat] [-1; 0] in
  let w := Examples.world_of (__init__ (Some 0) (Some 1)) arr in
  exists r w' out, _inverse_transform 0%nat (@None unit) w = (inr r, w') /\
    heap w' !! r = Some out /\
    length (data out) = 2%nat /\
    Forall (fun v => v <= 0 /\ v < 1) (data out).
Proof.
  apply (zero_bound_inverse_transform_leaves_bounds (Y := unit) 0%nat None
           (NdArray [2%nat] [-1; 0])
           (Examples.world_of (__init__ (Some 0) (Some 1))
              (NdArray [2%nat] [-1; 0])) 0 1);
    [reflexivity | reflexivity | by left | lra | reflexivity |].
  cbn. replace (1 - 0) with 1 by lra. rewrite ln_1.
  repeat constructor; lra.
Defined.


Lemma zero_bound_round_trip_below_lower_witness :
  let arr := NdArray [2%nat] [-1; 1 / 2] in
  let w := Examples.world_of (__init__ (Some 0) (Some 1)) arr in
  exists r w',
    (t <- _transform 0%nat (@None unit) ;;
     _inverse_transform t (@None unit)) w = (inr r, w') /\
    heap w' !! r = Some arr /\
    (Exists (fun x => x <= 0) (data arr) ->
     warnings w' = warnings w ++ [Warning msg_lower RuntimeWarning]).
Proof.
  apply (zero_bound_round_trip_below_lower (Y := unit) 0%nat None None
           (NdArray [2%nat] [-1; 1 / 2])
           (Examples.world_of (__init__ (Some 0) (Some 1))
              (NdArray [2%nat] [-1; 1 / 2])) 0 1);
    [reflexivity | reflexivity | by left | reflexivity |].
  cbn. repeat constructor; lra.
Defined.

Lemma test_params_transform_is_odd_witness :
  let w := {| self := _get_test_params;
              heap := <[1%nat := amap Ropp Examples.one_and_ten]>
                        {[ 0%nat := Examples.one_and_ten ]};
              warnings := [] |} in
  exists r w1 r' w2 out,
    _transform 0%nat (@None unit) w = (inr r, w1) /\
    _transform 1%nat (@None unit) w = (inr r', w2) /\
    heap w1 !! r = Some out /\
    heap w2 !! r' = Some (amap Ropp out).
Proof.
  apply (test_params_transform_is_odd (Y := unit) 0%nat 1%nat None
           Examples.one_and_ten);
    [reflexivity | reflexivity | reflexivity |].
  unfold inside. cbn. repeat constructor; lra.
Defined.
End MoreWitnesses.

(** ** The documented formulas *)

Section TransformerFormulas.
Context {num : Type} `{NumOps num} {Y : Type}.
Import ScaledLogitSeriesTransformer.

(** X13. [_transform] applies the formulas of the docstring, element by
    element: [log((x - a) / (b - x))] when both bounds are set and neither
    is zero, [-log(b - x)] when only the upper bound is set, and
    [log(x - a)] when only the lower bound is set. *)
Theorem transform_applies_documented_formula
    (X : addr) (y : option Y) (arr : ndarray num) (w : world num) :
  heap w !! X = Some arr ->
  exists r w', _transform X y w = (inr r, w') /\
    (forall a b,
       lower_bound (self w) = Some a -> upper_bound (self w) = Some b ->
       num_is_zero a = false -> num_is_zero b = false ->
       heap w' !! r
       = Some (amap (fun x => num_log (num_div (num_sub x a) (num_sub b x)))
                 arr)) /\
    (forall b,
       lower_bound (self w) = None -> upper_bound (self w) = Some b ->
       heap w' !! r
       = Some (amap (fun x => num_neg (num_log (num_sub b x))) arr)) /\
    (forall a,
       lower_bound (self w) = Some a -> upper_bound (self w) = None ->
       heap w' !! r = Some (amap (fun x => num_log (num_sub x a)) arr)).
Proof.
  intros HX.
  destruct (_transform_run X y arr w HX)
    as (r & w' & Hrun & _ & _ & _ & Hr & _).
  exists r, w'. split; [done|]. unfold selected in Hr.
  repeat split.
  - intros a b Hlb Hub Ha Hb. by rewrite Hlb, Hub, Ha, Hb in Hr.
  - intros b Hlb Hub. by rewrite Hlb, Hub in Hr.
  - intros a Hlb Hub. by rewrite Hlb, Hub in Hr.
Qed.

(** X14. [_inverse_transform] applies the inverse formulas:
    [(b * exp(x) + a) / (exp(x) + 1)] when both bounds are set and neither
    is zero, [b - exp(-x)] when only the upper bound is set, and
    [exp(x) + a] when only the lower bound is set. *)
Theorem inverse_transform_applies_inverse_formula
    (X : addr) (y : option Y) (arr : ndarray num) (w : world num) :
  heap w !! X = Some arr ->
  exists r w', _inverse_transform X y w = (inr r, w') /\
    (forall a b,
       lower_bound (self w) = Some a -> upper_bound (self w) = Some b ->
       num_is_zero a = false -> num_is_zero b = false ->
       heap w' !! r
       = Some (amap (fun x => num_div (num_add (num_mul b (num_exp x)) a)
                                      (num_add (num_exp x) num_one))
                 arr)) /\
    (forall b,
       lower_bound (self w) = None -> upper_bound (self w) = Some b ->
       heap w' !! r
       = Some (amap (fun x => num_sub b (num_exp (num_neg x))) arr)) /\
    (forall a,
       lower_bound (self w) = Some a -> upper_bound (self w) = None ->
       heap w' !! r = Some (amap (fun x => num_add (num_exp x) a) arr)).
Proof.
  intros HX.
  destruct (_inverse_transform_run X y arr w HX)
    as (r & w' & Hrun & _ & _ & _ & Hr & _).
  exists r, w'. split; [done|]. unfold selected in Hr.
  repeat split.
  - intros a b Hlb Hub Ha Hb. by rewrite Hlb, Hub, Ha, Hb in Hr.
  - intros b Hlb Hub. by rewrite Hlb, Hub in Hr.
  - intros a Hlb Hub. by rewrite Hlb, Hub in Hr.
Qed.
End TransformerFormulas.

Section TransformerInverseOrder.
Context {Y : Type}.
Import ScaledLogitSeriesTransformer Bounds.
Local Open Scope R_scope.



End TransformerInverseOrder.

Section FormulaWitnesses.
Import ScaledLogitSeriesTransformer.

Lemma transform_applies_documented_formula_witness :
  let w := Examples.term_world (Some (-5)%Z) (Some 5%Z) [0%Z; 3%Z] in
  exists r w', _transform 0%nat (@None unit) w = (inr r, w') /\
    heap w' !! r
    = Some (NdArray [2%nat]
              [Log (Div (Sub (Lit 0) (Lit (-5))) (Sub (Lit 5) (Lit 0)));
               Log (Div (Sub (Lit 3) (Lit (-5))) (Sub (Lit 5) (Lit 3)))]).
Proof.
  destruct (transform_applies_documented_formula (Y := unit) 0%nat None
              (NdArray [2%nat] [Lit 0; Lit 3])
              (Examples.term_world (Some (-5)%Z) (Some 5%Z) [0%Z; 3%Z])
              eq_refl)
    as (r & w' & Hrun & Hboth & _).
  exists r, w'. split; [exact Hrun|].
  exact (Hboth (Lit (-5)) (Lit 5) eq_refl eq_refl eq_refl eq_refl).
Defined.

Lemma inverse_transform_applies_inverse_formula_witness :
  let w := Examples.term_world (Some (-5)%Z) (Some 5%Z) [2%Z] in
  exists r w', _inverse_transform 0%nat (@None unit) w = (inr r, w') /\
    heap w' !! r
    = Some (NdArray [1%nat]
              [Div (Add (Mul (Lit 5) (Exp (Lit 2))) (Lit (-5)))
                   (Add (Exp (Lit 2)) (Lit 1))]).
Proof.
  destruct (inverse_transform_applies_inverse_formula (Y := unit) 0%nat None
              (NdArray [1%nat] [Lit 2])
              (Examples.term_world (Some (-5)%Z) (Some 5%Z) [2%Z])
              eq_refl)
    as (r & w' & Hrun & Hboth & _).
  exists r, w'. split; [exact Hrun|].
  exact (Hboth (Lit (-5)) (Lit 5) eq_refl eq_refl eq_refl eq_refl).
Defined.

End FormulaWitnesses.
